(** * analyse_cc4s.py: structure-factor twist averaging

    A shallow embedding of [analyse_cc4s.py] and the properties of its
    analysis pipeline.

    Numbers are IEEE 754 binary64 values ([np.float64]), modelled by Rocq's
    primitive [float] with its round-to-nearest-even operations, NaN and
    signed zeros and infinities.  The NumPy and pandas operations the script
    calls are modelled on lists of floats, after their documented behaviour;
    where a library adds up a column, the model adds from left to right in
    row order.

    A file is modelled by its content: the list of its lines, each line the
    list of the numbers written on it. *)

From Stdlib Require Import String Ascii.
From Stdlib Require Import ZArith Lia List Bool Floats Permutation Sorted.
From Stdlib Require Uint63.
Import ListNotations.

(** ** Python exceptions

    The script catches no exception: a failure of a library call, or the
    [ValueError] it raises itself, ends the run.  The errors the
    specification names ParseError, LengthMismatchError and
    InconsistentGridError are exceptions of these two classes. *)

Inductive exn : Type :=
| ValueError
| IndexError.

Inductive result (A : Type) : Type :=
| Ok (a : A)
| Raise (e : exn).

Arguments Ok {A} a.
Arguments Raise {A} e.

Definition bind {A B : Type} (r : result A) (k : A -> result B) : result B :=
  match r with
  | Ok a => k a
  | Raise e => Raise e
  end.

Notation "x <- r ;; k" := (bind r (fun x => k))
  (at level 61, r at next level, right associativity).

Definition raises {A : Type} (r : result A) : Prop :=
  exists e, r = Raise e.

(** ** NumPy *)

Module np.

(** An array of [float64]: zero-, one- or two-dimensional.  A
    two-dimensional array is the list of its rows. *)
Inductive ndarray : Type :=
| Arr0 (x : float)
| Arr1 (xs : list float)
| Arr2 (rows : list (list float)).

(** The content of a text file: its lines, each the numbers on it. *)
Definition textfile : Type := list (list float).

Definition blank (line : list float) : bool :=
  match line with
  | [] => true
  | _ :: _ => false
  end.

(** [np.loadtxt(fname, dtype=np.float64)]: blank lines are skipped, every
    remaining line must hold the same number of values, and the table read
    is squeezed: axes of length one are dropped.  A file with no data gives
    an empty one-dimensional array. *)
Definition loadtxt (fname : textfile) : result ndarray :=
  match filter (fun line => negb (blank line)) fname with
  | [] => Ok (Arr1 [])
  | first :: rest =>
      if forallb (fun line => length line =? length first) rest then
        match first, rest with
        | [x], [] => Ok (Arr0 x)
        | _, [] => Ok (Arr1 first)
        | [_], _ => Ok (Arr1 (concat (first :: rest)))
        | _, _ => Ok (Arr2 (first :: rest))
        end
      else Raise ValueError
  end.

(** [a.shape[0]]: a zero-dimensional array has the empty shape. *)
Definition shape0 (a : ndarray) : result nat :=
  match a with
  | Arr0 _ => Raise IndexError
  | Arr1 xs => Ok (length xs)
  | Arr2 rows => Ok (length rows)
  end.

(** The elements in row-major order. *)
Definition ravel (a : ndarray) : list float :=
  match a with
  | Arr0 x => [x]
  | Arr1 xs => xs
  | Arr2 rows => concat rows
  end.

Definition size (a : ndarray) : nat := length (ravel a).

(** [a.ndim]: the number of dimensions. *)
Definition ndim (a : ndarray) : nat :=
  match a with
  | Arr0 _ => 0
  | Arr1 _ => 1
  | Arr2 _ => 2
  end.

Fixpoint rows3 (xs : list float) : list (float * float * float) :=
  match xs with
  | x :: y :: z :: rest => (x, y, z) :: rows3 rest
  | _ => []
  end.

(** [a.reshape((n, 3))]: the element count has to be [n * 3]. *)
Definition reshape3 (a : ndarray) (n : nat) : result (list (float * float * float)) :=
  if size a =? n * 3 then Ok (rows3 (ravel a)) else Raise ValueError.

(** One entry of [np.einsum('ij,ij->i', g, g)]. *)
Definition dot3 (v : float * float * float) : float :=
  let '(x, y, z) := v in (x * x + y * y + z * z)%float.

Definition two52 : float := 4503599627370496%float.

(** [np.rint]: the nearest integer, ties to even, with the sign kept. *)
Definition rint (x : float) : float :=
  if (abs x <? two52)%float then
    let r := (abs x + two52 - two52)%float in
    if get_sign x then (- r)%float else r
  else x.

(** [x.round(10)]: scale by [10**10], round to an integer, scale back. *)
Definition round10 (x : float) : float :=
  (rint (x * 1e10) / 1e10)%float.

(** [np.power(x, 2)]. *)
Definition power2 (x : float) : float := (x * x)%float.

(** [np.array_equal(a, b)] on one-dimensional arrays: same shape and all
    elements equal under [==]. *)
Fixpoint array_equal (a b : list float) : bool :=
  match a, b with
  | [], [] => true
  | x :: a', y :: b' => (x =? y)%float && array_equal a' b'
  | _, _ => false
  end.

(** The scan of [np.argmin]: [mp] is the least value so far and [min_ind]
    its index; a NaN ends the scan. *)
Fixpoint argmin_scan (mp : float) (min_ind i : nat) (ip : list float) : nat :=
  if is_nan mp then min_ind
  else
    match ip with
    | [] => min_ind
    | x :: ip' =>
        if negb (mp <=? x)%float
        then argmin_scan x i (S i) ip'
        else argmin_scan mp min_ind (S i) ip'
    end.

(** [np.argmin(a)]; an empty sequence has no minimum. *)
Definition argmin (a : list float) : result nat :=
  match a with
  | [] => Raise ValueError
  | x :: ip => Ok (argmin_scan x 0 1 ip)
  end.

End np.

(** ** pandas *)

Module pd.

(** A row of a frame with the columns ['G'], ['V_G'] and ['S_G']. *)
Record row : Type := mkrow { G : float; V_G : float; S_G : float }.

(** A frame with these three columns and the default index [0 .. n-1],
    as the list of its rows. *)
Definition DataFrame : Type := list row.

(** A value of the dictionary given to [pd.DataFrame]: a one-dimensional
    array is a column and must have the frame's length, a zero-dimensional
    array counts as a scalar and is repeated on every row, and an array of
    more dimensions is refused. *)
Definition column (n : nat) (a : np.ndarray) : result (list float) :=
  match a with
  | np.Arr0 x => Ok (repeat x n)
  | np.Arr1 xs => if length xs =? n then Ok xs else Raise ValueError
  | np.Arr2 _ => Raise ValueError
  end.

Fixpoint zip3 (g v s : list float) : DataFrame :=
  match g, v, s with
  | x :: g', y :: v', z :: s' => mkrow x y z :: zip3 g' v' s'
  | _, _, _ => []
  end.

(** [pd.DataFrame({'G': g, 'V_G': v, 'S_G': s})] for a one-dimensional [g]. *)
Definition mkDataFrame (g : list float) (v s : np.ndarray) : result DataFrame :=
  cv <- column (length g) v ;;
  cs <- column (length g) s ;;
  Ok (zip3 g cv cs).

(** The number [n] as a float. *)
Definition float_of_nat (n : nat) : float :=
  of_uint63 (Uint63.of_Z (Z.of_nat n)).

Definition notna (x : float) : bool := negb (is_nan x).

Definition fsum (xs : list float) : float :=
  fold_left PrimFloat.add xs 0%float.

(** The mean of a group's column: missing values are left out, and a column
    with no value has the mean NaN. *)
Definition mean (xs : list float) : float :=
  let ys := filter notna xs in
  match ys with
  | [] => nan
  | _ :: _ => (fsum ys / float_of_nat (length ys))%float
  end.

(** The sample standard deviation ([ddof=1]) of the values [ys]. *)
Definition std (ys : list float) : float :=
  let m := (fsum ys / float_of_nat (length ys))%float in
  PrimFloat.sqrt (fsum (map (fun y => ((y - m) * (y - m))%float) ys)
        / float_of_nat (length ys - 1))%float.

(** The standard error of the mean of a group's column: the sample standard
    deviation over the square root of the count, NaN when fewer than two
    values are present. *)
Definition sem (xs : list float) : float :=
  let ys := filter notna xs in
  if length ys <=? 1 then nan
  else (std ys / PrimFloat.sqrt (float_of_nat (length ys)))%float.

(** The keys of [df.groupby('G')]: the distinct values of the column in
    order of first appearance, NaN left out, then sorted ascending. *)
Fixpoint seen (k : float) (ks : list float) : bool :=
  match ks with
  | [] => false
  | k' :: ks' => (k' =? k)%float || seen k ks'
  end.

Fixpoint uniques (acc xs : list float) : list float :=
  match xs with
  | [] => acc
  | x :: xs' =>
      if is_nan x || seen x acc then uniques acc xs'
      else uniques (acc ++ [x]) xs'
  end.

Fixpoint insert (k : float) (ks : list float) : list float :=
  match ks with
  | [] => [k]
  | k' :: ks' => if (k <=? k')%float then k :: ks else k' :: insert k ks'
  end.

Fixpoint sort (ks : list float) : list float :=
  match ks with
  | [] => []
  | k :: ks' => insert k (sort ks')
  end.

Definition group_keys (df : DataFrame) : list float :=
  sort (uniques [] (map G df)).

(** The rows of the group with key [k], in the frame's order. *)
Definition get_group (df : DataFrame) (k : float) : DataFrame :=
  filter (fun r => (G r =? k)%float) df.

(** [df.groupby('G', as_index=False).agg()] for a column aggregation [agg]:
    one row per key, in the order of the keys; the column ['G'] holds the
    key and the other columns the aggregate of the group's values. *)
Definition groupby_agg (agg : list float -> float) (df : DataFrame) : DataFrame :=
  map (fun k =>
         let g := get_group df k in
         {| G := k; V_G := agg (map V_G g); S_G := agg (map S_G g) |})
      (group_keys df).

(** [pd.concat(frames)]: the rows of the frames one after the other. *)
Definition concat (frames : list DataFrame) : result DataFrame :=
  match frames with
  | [] => Raise ValueError
  | _ :: _ => Ok (List.concat frames)
  end.

(** [a - b] for two series with default indexes: the labels are aligned,
    and a label only one of them has gives NaN. *)
Fixpoint series_sub (a b : list float) : list float :=
  match a, b with
  | x :: a', y :: b' => (x - y)%float :: series_sub a' b'
  | _, [] => map (fun _ => nan) a
  | [], _ => map (fun _ => nan) b
  end.

(** [s.sum()]: missing values count as zero. *)
Definition series_sum (s : list float) : float :=
  fsum (map (fun x => if is_nan x then 0%float else x) s).

End pd.

(** ** The script *)

(** The frame of averages: the columns of [group.mean()] and the three
    error columns added to it. *)
Record SFrow : Type := mkSFrow {
  means : pd.row;
  G_error : float;
  V_G_error : float;
  S_G_error : float
}.

Definition SF_col (col : pd.row -> float) (SF : list SFrow) : list float :=
  map (fun r => col (means r)) SF.

Definition read_and_generate_Gvector_magnitudes (Gvector_file : np.textfile)
  : result (list float) :=
  raw_g_xyz <- np.loadtxt Gvector_file ;;
  n <- np.shape0 raw_g_xyz ;;
  let N_G := n / 3 in
  g_xyz <- np.reshape3 raw_g_xyz N_G ;;
  Ok (map (fun v => PrimFloat.sqrt (np.dot3 v)) g_xyz).

Definition read_Vg (Coulomb_files : np.textfile) : result np.ndarray :=
  np.loadtxt Coulomb_files.

Definition read_Sg (S_G_file : np.textfile) : result np.ndarray :=
  np.loadtxt S_G_file.

(** The body of the loop of [read_and_average_SF]: the frame of one run. *)
Definition read_SFi (files : np.textfile * np.textfile * np.textfile)
  : result pd.DataFrame :=
  let '(Gvector_file, Coulomb_file, S_G_file) := files in
  G <- read_and_generate_Gvector_magnitudes Gvector_file ;;
  V_G <- read_Vg Coulomb_file ;;
  S_G <- read_Sg S_G_file ;;
  pd.mkDataFrame (map np.round10 G) V_G S_G.

Fixpoint read_raw_SF (files : list (np.textfile * np.textfile * np.textfile))
  : result (list pd.DataFrame) :=
  match files with
  | [] => Ok []
  | f :: files' =>
      SFi <- read_SFi f ;;
      raw_SF <- read_raw_SF files' ;;
      Ok (SFi :: raw_SF)
  end.

Fixpoint add_errors (SF sems : pd.DataFrame) : list SFrow :=
  match SF, sems with
  | m :: SF', e :: sems' =>
      {| means := m;
         G_error := pd.G e;
         V_G_error := pd.V_G e;
         S_G_error := pd.S_G e |} :: add_errors SF' sems'
  | _, _ => []
  end.

(** The second half of [read_and_average_SF]: the frame of averages of the
    runs' frames. *)
Definition average_SF (raw_SF : list pd.DataFrame) : result (list SFrow) :=
  all <- pd.concat raw_SF ;;
  let SF := pd.groupby_agg pd.mean all in
  Ok (add_errors SF (pd.groupby_agg pd.sem all)).

Definition read_and_average_SF (Gvector_files Coulomb_files S_G_files : list np.textfile)
  : result (list pd.DataFrame * list SFrow) :=
  raw_SF <- read_raw_SF (combine (combine Gvector_files Coulomb_files) S_G_files) ;;
  SF <- average_SF raw_SF ;;
  Ok (raw_SF, SF).

(** The residual the loop of [find_special_twist_angle] appends for the
    run's frame [SFi]. *)
Definition residual (SF : list SFrow) (SFi : pd.DataFrame) : float :=
  let aSFi := pd.groupby_agg pd.mean SFi in
  pd.series_sum
    (map (fun d => np.power2 (abs d))
         (pd.series_sub (SF_col pd.S_G SF) (map pd.S_G aSFi))).

(** Whether the grid of the run's frame [SFi] is the grid of the averages. *)
Definition same_grid (SF : list SFrow) (SFi : pd.DataFrame) : bool :=
  np.array_equal (map pd.G (pd.groupby_agg pd.mean SFi)) (SF_col pd.G SF).

Fixpoint residuals_loop (raw_SF : list pd.DataFrame) (SF : list SFrow)
    (residuals : list float) : result (list float) :=
  match raw_SF with
  | [] => Ok residuals
  | SFi :: raw_SF' =>
      let residuals := residuals ++ [residual SF SFi] in
      if negb (same_grid SF SFi) then Raise ValueError
      else residuals_loop raw_SF' SF residuals
  end.

Definition find_special_twist_angle (raw_SF : list pd.DataFrame) (SF : list SFrow)
  : result nat :=
  residuals <- residuals_loop raw_SF SF [] ;;
  np.argmin residuals.

(** The run reported for the frames [raw_SF] of the runs: the two steps of
    [main] that follow the reading of the files. *)
Definition special_twist (raw_SF : list pd.DataFrame) : result nat :=
  SF <- average_SF raw_SF ;;
  find_special_twist_angle raw_SF SF.

(** The analysis of [main]: the index of the directory it reports. *)
Definition main (Gvector_files Coulomb_files S_G_files : list np.textfile)
  : result nat :=
  out <- read_and_average_SF Gvector_files Coulomb_files S_G_files ;;
  find_special_twist_angle (fst out) (snd out).

(** *** The names of the files [write_sfTA_csv] writes *)

Module str.

(** [sub in s]: the string [sub] occurs in [s]. *)
Fixpoint contains (sub s : string) : bool :=
  String.prefix sub s ||
  match s with
  | EmptyString => false
  | String _ s' => contains sub s'
  end.

(** [s.replace(old, new)] for a non-empty [old]: the occurrences of [old]
    are replaced from the left; [skip] counts the characters of an
    occurrence still to pass over. *)
Fixpoint replace_from (old new : string) (skip : nat) (s : string) : string :=
  match s with
  | EmptyString => EmptyString
  | String c s' =>
      match skip with
      | S k => replace_from old new k s'
      | O =>
          if String.prefix old s
          then String.append new (replace_from old new (String.length old - 1) s')
          else String c (replace_from old new 0 s')
      end
  end.

Definition replace (old new s : string) : string := replace_from old new 0 s.

(** [s.endswith(suffix)]. *)
Fixpoint endswith (s suffix : string) : bool :=
  String.eqb s suffix ||
  match s with
  | EmptyString => false
  | String _ s' => endswith s' suffix
  end.

End str.

(** The first lines of [write_sfTA_csv]: the name of the file of structure
    factors and the name of the file of the twist angle map. *)
Definition csv_file_name (csv_file : string) : string :=
  if negb (str.contains ".csv" csv_file)
  then String.append csv_file ".csv"
  else csv_file.

Definition csv_twist_name (csv_file : string) : string :=
  str.replace ".csv" "_Twist_angle_Num_map.csv" (csv_file_name csv_file).

(** ** Notions the properties are stated with *)

(** Equality of two floats as numbers ([==]). *)
Definition feq (x y : float) : Prop := (x =? y)%float = true.

(** Two sequences of G-magnitudes are equal: same length, equal entries. *)
Definition grid_eq (g1 g2 : list float) : Prop := Forall2 feq g1 g2.

(** The G-magnitudes of a run's frame after grouping, in ascending order. *)
Definition run_grid (SFi : pd.DataFrame) : list float :=
  map pd.G (pd.groupby_agg pd.mean SFi).

(** The run's own mean structure factor per G-magnitude. *)
Definition run_S_G (SFi : pd.DataFrame) : list float :=
  map pd.S_G (pd.groupby_agg pd.mean SFi).

Definition sq_diff (a b : float) : float := ((a - b) * (a - b))%float.

(** Residual = Σ_G (structure_factor_avg(G) − structure_factor_run(G))²,
    over the G-magnitudes at which the difference is a number. *)
Definition Residual (SF : list SFrow) (SFi : pd.DataFrame) : float :=
  pd.fsum (filter pd.notna
             (map (fun ab => sq_diff (fst ab) (snd ab))
                  (combine (SF_col pd.S_G SF) (run_S_G SFi)))).


(** The number of values written in a file. *)
Definition count_values (f : np.textfile) : nat := length (List.concat f).


(** [sub] occurs in [s]. *)
Definition occurs (sub s : string) : Prop :=
  exists pre post, s = String.append pre (String.append sub post).

(** What the columns ['G'] and ['S_G'] of a frame hold. *)
Definition G_and_S_G (SFi : pd.DataFrame) : list (float * float) :=
  map (fun r => (pd.G r, pd.S_G r)) SFi.

(** The order [<] of the floats, and the floats that are numbers. *)
Definition flt (x y : float) : Prop := (x <? y)%float = true.

Definition not_nan (x : float) : Prop := is_nan x = false.

(** No two of the keys are equal as numbers. *)
Fixpoint pairwise_distinct (ks : list float) : Prop :=
  match ks with
  | [] => True
  | k :: ks' => Forall (fun k' => ~ feq k k') ks' /\ pairwise_distinct ks'
  end.

(** The row of the table of averages for the key [k] and its group [g], as
    [average_SF] fills it. *)
Definition row_of_group (k : float) (g : pd.DataFrame) : SFrow :=
  {| means := {| pd.G := k;
                 pd.V_G := pd.mean (map pd.V_G g);
                 pd.S_G := pd.mean (map pd.S_G g) |};
     G_error := k;
     V_G_error := pd.sem (map pd.V_G g);
     S_G_error := pd.sem (map pd.S_G g) |}.


(** ** The order of the floats

    A float that is not NaN has a rank, a triple of integers compared
    lexicographically, that orders the floats as [<?] does. *)

Definition rank (f : spec_float) : Z * Z * Z :=
  match f with
  | S754_zero _ => (0, 0, 0)
  | S754_infinity false => (2, 0, 0)
  | S754_infinity true => (-2, 0, 0)
  | S754_nan => (0, 0, 0)
  | S754_finite false m e => (1, e, Zpos m)
  | S754_finite true m e => (-1, - e, Zneg m)
  end%Z.

Definition lex_lt (a b : Z * Z * Z) : Prop :=
  let '(a1, a2, a3) := a in
  let '(b1, b2, b3) := b in
  (a1 < b1 \/ (a1 = b1 /\ (a2 < b2 \/ (a2 = b2 /\ a3 < b3))))%Z.

Definition fkey (x : float) : option (Z * Z * Z) :=
  match Prim2SF x with
  | S754_nan => None
  | f => Some (rank f)
  end.

(** The float has the sign [s] and is not NaN. *)
Definition sf_sign_is (s : bool) (f : spec_float) : Prop :=
  match f with
  | S754_zero s' | S754_infinity s' | S754_finite s' _ _ => s' = s
  | S754_nan => False
  end.

Definition nonneg (x : float) : Prop := sf_sign_is false (Prim2SF x).

(** ** Inputs the properties are checked at *)

Module Examples.

Definition r (g v s : float) : pd.row := pd.mkrow g v s.

(** Three runs on the grid {1, 2}; runs 0 and 2 hold the same structure
    factors. *)
Definition tie_runs : list pd.DataFrame :=
  [ [r 1 0 10; r 2 0 20]; [r 1 0 30; r 2 0 40]; [r 1 0 10; r 2 0 20] ].

Definition table_of (raw_SF : list pd.DataFrame) : list SFrow :=
  match average_SF raw_SF with
  | Ok SF => SF
  | Raise _ => []
  end.

(** Two runs, the second on a finer grid. *)
Definition finer_runs : list pd.DataFrame :=
  [ [r 1 0 10; r 2 0 20]; [r 1 0 30; r 1.5 0 35; r 2 0 40] ].



(** Grid files: the vectors (1,0,0), (0,2,0), (0,0,3), one number per line
    and one vector per line; two vectors; and a file of eight numbers. *)
Definition grid_one_per_line : np.textfile :=
  [[1]; [0]; [0]; [0]; [2]; [0]; [0]; [0]; [3]]%float.

Definition grid_one_vector_per_line : np.textfile :=
  [[1; 0; 0]; [0; 2; 0]; [0; 0; 3]]%float.

Definition grid_two_vectors : np.textfile :=
  [[1]; [0]; [0]; [0]; [2]; [0]]%float.

Definition grid_eight_numbers : np.textfile :=
  [[1]; [0]; [0]; [0]; [2]; [0]; [0]; [0]]%float.

End Examples.

(** ** The rest of the script: finding the files, reporting, exporting *)

Module os.

(** The file system: the content of every file that exists. *)
Definition filesystem : Type := string -> option np.textfile.

(** [os.path.isfile(path)]. *)
Definition isfile (fs : filesystem) (path : string) : bool :=
  match fs path with
  | Some _ => true
  | None => false
  end.

(** The content of a file that exists. *)
Definition content (fs : filesystem) (path : string) : np.textfile :=
  match fs path with
  | Some f => f
  | None => []
  end.

End os.

Definition Gvector_path (path : string) : string :=
  String.append path "/GridVectors.elements".

Definition Coulomb_path (path : string) : string :=
  String.append path "/CoulombPotential.elements".

Definition S_G_path (path : string) : string :=
  String.append path "/SF.elements".

(** The loop of [find_SF_outputs], with the three lists built so far. *)
Fixpoint find_SF_outputs_loop (fs : os.filesystem) (directories : list string)
    (Gvector_files Coulomb_files S_G_files : list string)
  : result (list string * list string * list string) :=
  match directories with
  | [] => Ok (Gvector_files, Coulomb_files, S_G_files)
  | path :: directories' =>
      let Gvector_file := Gvector_path path in
      let Coulomb_file := Coulomb_path path in
      let S_G_file := S_G_path path in
      if negb (os.isfile fs Gvector_file) then Raise ValueError
      else if negb (os.isfile fs Coulomb_file) then Raise ValueError
      else if negb (os.isfile fs S_G_file) then Raise ValueError
      else find_SF_outputs_loop fs directories'
             (Gvector_files ++ [Gvector_file])
             (Coulomb_files ++ [Coulomb_file])
             (S_G_files ++ [S_G_file])
  end.

Definition find_SF_outputs (fs : os.filesystem) (directories : list string)
  : result (list string * list string * list string) :=
  find_SF_outputs_loop fs directories [] [] [].

(** [main] without the option [--write], from the directories given on the
    command line: the files are found, read and analysed, and the directory
    of the special twist angle is reported.  The files read are files
    [find_SF_outputs] has found to exist. *)
Definition main_report (fs : os.filesystem) (directories : list string)
  : result string :=
  files <- find_SF_outputs fs directories ;;
  let '(Gvector_files, Coulomb_files, S_G_files) := files in
  special_twist_index <-
    main (map (os.content fs) Gvector_files)
         (map (os.content fs) Coulomb_files)
         (map (os.content fs) S_G_files) ;;
  match nth_error directories special_twist_index with
  | Some directory => Ok directory
  | None => Raise IndexError
  end.

(** A row of the file of structure factors [write_sfTA_csv] writes: the
    column ['Twist angle Num'] and the columns of the run's frame. *)
Record csv_row : Type := mkcsv_row {
  Twist_angle_Num : nat;
  columns : pd.row
}.

(** [pd.concat] of frames of any rows. *)
Definition concat_frames {A : Type} (frames : list (list A)) : result (list A) :=
  match frames with
  | [] => Raise ValueError
  | _ :: _ => Ok (List.concat frames)
  end.

(** The frame [oSFi] of the loop of [write_sfTA_csv] before it is sorted:
    the rows of the run [i], each with the number [i + 1]. *)
Definition numbered (i : nat) (SFi : pd.DataFrame) : list csv_row :=
  map (mkcsv_row (i + 1)) SFi.

Section WriteCsv.

(** [oSFi.sort_values(by='G').reset_index(drop=True)].  pandas sorts with
    NumPy's quicksort, which leaves open the order of rows of equal ['G'];
    the sort is a parameter of the model. *)
Variable sort_values : list csv_row -> list csv_row.

(** The loop of [write_sfTA_csv] over [enumerate(zip(raw_SF, directories))],
    with the lists built so far. *)
Fixpoint export_loop (i : nat) (runs : list (pd.DataFrame * string))
    (csv_SF : list (list csv_row)) (csv_mp : list (nat * string))
  : list (list csv_row) * list (nat * string) :=
  match runs with
  | [] => (csv_SF, csv_mp)
  | (SFi, directory) :: runs' =>
      let oSFi := numbered i SFi in
      export_loop (S i) runs'
        (csv_SF ++ [sort_values oSFi])
        (csv_mp ++ [(i + 1, directory)])
  end.

(** [write_sfTA_csv]: the two files written, each with its name and its
    rows; nothing is written when there is no frame to concatenate. *)
Definition write_sfTA_csv (csv_file : string) (directories : list string)
    (raw_SF : list pd.DataFrame)
  : result ((string * list csv_row) * (string * list (nat * string))) :=
  let '(csv_SF, csv_mp) :=
    export_loop 0 (combine raw_SF directories) [] [] in
  table <- concat_frames csv_SF ;;
  Ok ((csv_file_name csv_file, table), (csv_twist_name csv_file, csv_mp)).

End WriteCsv.

(** A sort [sort_values] may be: insertion by ascending ['G'], the rows
    without a G-magnitude last. *)
Fixpoint insert_by_G (x : csv_row) (l : list csv_row) : list csv_row :=
  match l with
  | [] => [x]
  | y :: l' =>
      if is_nan (pd.G (columns y)) || (pd.G (columns x) <=? pd.G (columns y))%float
      then x :: l
      else y :: insert_by_G x l'
  end.

Fixpoint sort_by_G (l : list csv_row) : list csv_row :=
  match l with
  | [] => []
  | x :: l' => insert_by_G x (sort_by_G l')
  end.

(** A directory holds the three files of a run. *)
Definition complete (fs : os.filesystem) (path : string) : bool :=
  os.isfile fs (Gvector_path path) &&
  os.isfile fs (Coulomb_path path) &&
  os.isfile fs (S_G_path path).

(** The float is NaN or it is a number that is not negative. *)
Definition nan_or_nonneg (x : float) : Prop :=
  is_nan x = true \/ nonneg x.

(** * Facts about the floats *)

Lemma SFcompare_rank f1 f2 :
  f1 <> S754_nan -> f2 <> S754_nan ->
  exists c, SFcompare f1 f2 = Some c /\
    match c with
    | Lt => lex_lt (rank f1) (rank f2)
    | Eq => rank f1 = rank f2
    | Gt => lex_lt (rank f2) (rank f1)
    end.
Proof.
  intros H1 H2.
  destruct f1 as [[]|[]| |[] m1 e1], f2 as [[]|[]| |[] m2 e2];
    try congruence; cbn [SFcompare rank];
    try (eexists; split; [reflexivity|]; cbn; first [reflexivity | lia]).
  - destruct (Z.compare_spec e1 e2) as [->|Hlt|Hgt].
    + change (Pos.compare_cont Eq m1 m2) with (Pos.compare m1 m2).
      destruct (Pos.compare_spec m1 m2) as [->|Hm|Hm];
        eexists; (split; [reflexivity|]); cbn; first [reflexivity | lia].
    + eexists; (split; [reflexivity|]); cbn; lia.
    + eexists; (split; [reflexivity|]); cbn; lia.
  - destruct (Z.compare_spec e1 e2) as [->|Hlt|Hgt].
    + change (Pos.compare_cont Eq m1 m2) with (Pos.compare m1 m2).
      destruct (Pos.compare_spec m1 m2) as [->|Hm|Hm];
        eexists; (split; [reflexivity|]); cbn; first [reflexivity | lia].
    + eexists; (split; [reflexivity|]); cbn; lia.
    + eexists; (split; [reflexivity|]); cbn; lia.
Qed.

Lemma lex_lt_trans a b c : lex_lt a b -> lex_lt b c -> lex_lt a c.
Proof. destruct a as [[? ?] ?], b as [[? ?] ?], c as [[? ?] ?]; cbn; lia. Qed.

Lemma lex_lt_irrefl a : ~ lex_lt a a.
Proof. destruct a as [[? ?] ?]; cbn; lia. Qed.

Lemma lex_trichotomy a b : lex_lt a b \/ a = b \/ lex_lt b a.
Proof.
  destruct a as [[a1 a2] a3], b as [[b1 b2] b3]; cbn.
  destruct (Z.lt_total a1 b1) as [?|[->|?]]; [lia| |lia].
  destruct (Z.lt_total a2 b2) as [?|[->|?]]; [lia| |lia].
  destruct (Z.lt_total a3 b3) as [?|[->|?]]; [lia| |lia].
  right; left; reflexivity.
Qed.

Lemma fkey_Some x k : fkey x = Some k -> Prim2SF x <> S754_nan /\ k = rank (Prim2SF x).
Proof. unfold fkey. destruct (Prim2SF x); intros H; inversion H; split; congruence. Qed.

Lemma fkey_None x : fkey x = None -> Prim2SF x = S754_nan.
Proof. unfold fkey. destruct (Prim2SF x); intros H; congruence. Qed.

Lemma ltb_key x y :
  (x <? y)%float = true <-> exists a b, fkey x = Some a /\ fkey y = Some b /\ lex_lt a b.
Proof.
  rewrite ltb_spec. unfold SFltb.
  destruct (fkey x) as [a|] eqn:Hx, (fkey y) as [b|] eqn:Hy.
  - apply fkey_Some in Hx, Hy. destruct Hx as [Nx ->], Hy as [Ny ->].
    destruct (SFcompare_rank _ _ Nx Ny) as [c [-> Hc]].
    split.
    + destruct c; try discriminate. intros _. eauto.
    + intros (a0 & b0 & Ha & Hb & Hab). inversion Ha; inversion Hb; subst a0; try subst b0.
      destruct c; auto.
      * rewrite Hc in Hab. now apply lex_lt_irrefl in Hab.
      * exfalso. eapply lex_lt_irrefl, lex_lt_trans; eauto.
  - apply fkey_None in Hy. rewrite Hy.
    split; [|intros (a0 & b0 & _ & Hb & _); discriminate].
    destruct (Prim2SF x); discriminate.
  - apply fkey_None in Hx. rewrite Hx.
    split; [discriminate|intros (a0 & b0 & Ha & _ & _); discriminate].
  - apply fkey_None in Hx. rewrite Hx.
    split; [discriminate|intros (a0 & b0 & Ha & _ & _); discriminate].
Qed.

Lemma eqb_key x y :
  (x =? y)%float = true <-> exists a, fkey x = Some a /\ fkey y = Some a.
Proof.
  rewrite eqb_spec. unfold SFeqb.
  destruct (fkey x) as [a|] eqn:Hx, (fkey y) as [b|] eqn:Hy.
  - apply fkey_Some in Hx, Hy. destruct Hx as [Nx ->], Hy as [Ny ->].
    destruct (SFcompare_rank _ _ Nx Ny) as [c [-> Hc]].
    split.
    + destruct c; try discriminate. intros _. rewrite Hc. eauto.
    + intros (a0 & Ha & Hb). inversion Ha; inversion Hb; subst a0; try subst b0.
      destruct c; auto; rewrite H1 in Hc; now apply lex_lt_irrefl in Hc.
  - apply fkey_None in Hy. rewrite Hy.
    split; [|intros (a0 & _ & Hb); discriminate].
    destruct (Prim2SF x); discriminate.
  - apply fkey_None in Hx. rewrite Hx.
    split; [discriminate|intros (a0 & Ha & _); discriminate].
  - apply fkey_None in Hx. rewrite Hx.
    split; [discriminate|intros (a0 & Ha & _); discriminate].
Qed.

Lemma leb_key x y :
  (x <=? y)%float = true <->
  exists a b, fkey x = Some a /\ fkey y = Some b /\ (lex_lt a b \/ a = b).
Proof.
  rewrite leb_spec. unfold SFleb.
  destruct (fkey x) as [a|] eqn:Hx, (fkey y) as [b|] eqn:Hy.
  - apply fkey_Some in Hx, Hy. destruct Hx as [Nx ->], Hy as [Ny ->].
    destruct (SFcompare_rank _ _ Nx Ny) as [c [-> Hc]].
    split.
    + destruct c; try discriminate; intros _; eauto 6.
    + intros (a0 & b0 & Ha & Hb & Hab). inversion Ha; inversion Hb; subst a0; try subst b0.
      destruct c; auto. exfalso. destruct Hab as [Hab|Hab].
      * eapply lex_lt_irrefl, lex_lt_trans; eauto.
      * rewrite Hab in Hc. now apply lex_lt_irrefl in Hc.
  - apply fkey_None in Hy. rewrite Hy.
    split; [|intros (a0 & b0 & _ & Hb & _); discriminate].
    destruct (Prim2SF x); discriminate.
  - apply fkey_None in Hx. rewrite Hx.
    split; [discriminate|intros (a0 & b0 & Ha & _ & _); discriminate].
  - apply fkey_None in Hx. rewrite Hx.
    split; [discriminate|intros (a0 & b0 & Ha & _ & _); discriminate].
Qed.

Lemma is_nan_key x : is_nan x = false <-> exists a, fkey x = Some a.
Proof.
  unfold is_nan. rewrite negb_false_iff, eqb_key.
  split; intros [a H]; eauto. destruct H; eauto.
Qed.


Lemma iter_pos_inv {A} (P : A -> Prop) (f : A -> A) :
  (forall x, P x -> P (f x)) -> forall n x, P x -> P (iter_pos f n x).
Proof.
  intros Hf. induction n as [n IH|n IH|]; intros x Hx; cbn; auto.
Qed.

Lemma shr_1_nonneg mrs : (0 <= shr_m mrs)%Z -> (0 <= shr_m (shr_1 mrs))%Z.
Proof.
  destruct mrs as [m r s]. cbn.
  destruct m as [|[p|p|]|[p|p|]]; cbn; lia.
Qed.

Lemma shr_fexp_nonneg m e l :
  (0 <= m)%Z -> (0 <= shr_m (fst (shr_fexp prec emax m e l)))%Z.
Proof.
  intros Hm. unfold shr_fexp, shr.
  assert (H0 : (0 <= shr_m (shr_record_of_loc m l))%Z)
    by (destruct l as [|[]]; cbn; exact Hm).
  destruct (fexp prec emax (Zdigits2 m + e) - e)%Z; cbn [fst]; auto.
  apply (iter_pos_inv (fun r => (0 <= shr_m r)%Z)); auto using shr_1_nonneg.
Qed.

Lemma round_nearest_even_nonneg m l :
  (0 <= m)%Z -> (0 <= round_nearest_even m l)%Z.
Proof.
  intros Hm. destruct l as [|[]]; cbn; try lia. destruct (Z.even m); lia.
Qed.

Lemma binary_round_aux_sign s m e l :
  (0 <= m)%Z -> sf_sign_is s (binary_round_aux prec emax s m e l).
Proof.
  intros Hm. unfold binary_round_aux.
  pose proof (shr_fexp_nonneg m e l Hm) as H1.
  destruct (shr_fexp prec emax m e l) as [mrs' e'] eqn:E1. cbn [fst] in H1.
  pose proof (shr_fexp_nonneg _ e' loc_Exact
                (round_nearest_even_nonneg _ (loc_of_shr_record mrs') H1)) as H2.
  destruct (shr_fexp prec emax _ e' loc_Exact) as [mrs'' e''] eqn:E2.
  cbn [fst] in H2.
  destruct (shr_m mrs'') as [|p|p]; [exact eq_refl| |lia].
  destruct (e'' <=? emax - prec)%Z; exact eq_refl.
Qed.

Lemma binary_round_sign s m e : sf_sign_is s (binary_round prec emax s m e).
Proof.
  unfold binary_round. destruct (shl_align _ _ _) as [mz ez].
  apply binary_round_aux_sign. lia.
Qed.

Lemma SFadd_nonneg f g :
  sf_sign_is false f -> sf_sign_is false g -> sf_sign_is false (SF64add f g).
Proof.
  destruct f as [[]|[]| |[] m1 e1], g as [[]|[]| |[] m2 e2]; cbn;
    try congruence; try tauto.
  intros _ _. apply binary_round_sign.
Qed.

Lemma SFmul_self_nonneg f : f <> S754_nan -> sf_sign_is false (SF64mul f f).
Proof.
  destruct f as [[]|[]| |[] m e]; cbn; try congruence; try reflexivity; intros _;
    apply binary_round_aux_sign; lia.
Qed.

Lemma SFsub_diag f :
  SF64sub f f = S754_zero false \/ SF64sub f f = S754_nan.
Proof.
  destruct f as [[]|[]| |s m e]; cbn; auto.
  rewrite Z.sub_diag. left; reflexivity.
Qed.

Lemma SFmul_abs f : SF64mul (SFabs f) (SFabs f) = SF64mul f f.
Proof. destruct f as [[]|[]| |[] m e]; reflexivity. Qed.


Lemma nonneg_not_nan x : nonneg x -> is_nan x = false.
Proof.
  unfold nonneg. intros H. apply is_nan_key. unfold fkey.
  destruct (Prim2SF x); cbn in H; try tauto; eauto.
Qed.

Lemma add_nonneg x y : nonneg x -> nonneg y -> nonneg (x + y).
Proof. unfold nonneg. rewrite add_spec. apply SFadd_nonneg. Qed.

Lemma is_nan_SF x : is_nan x = true <-> Prim2SF x = S754_nan.
Proof.
  split; intros H.
  - destruct (fkey x) eqn:E; [|now apply fkey_None].
    assert (is_nan x = false) by (apply is_nan_key; eauto). congruence.
  - destruct (is_nan x) eqn:E; auto. apply is_nan_key in E as [a Ha].
    apply fkey_Some in Ha. tauto.
Qed.

Lemma mul_self_nonneg x : is_nan x = false -> nonneg (x * x).
Proof.
  intros H. unfold nonneg. rewrite mul_spec. apply SFmul_self_nonneg.
  intros E. apply is_nan_SF in E. congruence.
Qed.

Lemma sub_diag x : (x - x)%float = zero \/ is_nan (x - x) = true.
Proof.
  destruct (SFsub_diag (Prim2SF x)) as [H|H]; rewrite <- sub_spec in H.
  - left. apply Prim2SF_inj. rewrite H. reflexivity.
  - right. now apply is_nan_SF.
Qed.

Lemma mul_abs x : (abs x * abs x)%float = (x * x)%float.
Proof.
  apply Prim2SF_inj. rewrite !mul_spec, abs_spec. apply SFmul_abs.
Qed.

(** The order lemmas, read off the ranks. *)

Lemma fkey_eq_inv (a b : Z * Z * Z) x :
  fkey x = Some a -> fkey x = Some b -> a = b.
Proof. congruence. Qed.

Ltac keys :=
  repeat match goal with
    | H : (_ <? _)%float = true |- _ =>
        apply ltb_key in H; destruct H as (? & ? & ? & ? & ?)
    | H : (_ <=? _)%float = true |- _ =>
        apply leb_key in H; destruct H as (? & ? & ? & ? & ?)
    | H : (_ =? _)%float = true |- _ =>
        apply eqb_key in H; destruct H as (? & ? & ?)
    | H : feq _ _ |- _ =>
        apply eqb_key in H; destruct H as (? & ? & ?)
    | H : is_nan _ = false |- _ =>
        apply is_nan_key in H; destruct H as (? & ?)
    end;
  repeat match goal with
    | H1 : fkey ?x = Some ?a, H2 : fkey ?x = Some ?b |- _ =>
        pose proof (fkey_eq_inv _ _ _ H1 H2); subst b; clear H2
    end.

Lemma ltb_trans x y z :
  (x <? y)%float = true -> (y <? z)%float = true -> (x <? z)%float = true.
Proof.
  intros H1 H2. keys. apply ltb_key. do 2 eexists. repeat split; eauto.
  eapply lex_lt_trans; eauto.
Qed.




Lemma not_leb_ltb x y :
  is_nan x = false -> is_nan y = false ->
  (x <=? y)%float = false -> (y <? x)%float = true.
Proof.
  intros Hx Hy H. keys.
  match goal with
  | Hx : fkey x = Some ?a, Hy : fkey y = Some ?b |- _ =>
      destruct (lex_trichotomy a b) as [L|[L|L]]
  end.
  - rewrite (proj2 (leb_key x y)) in H; [discriminate|]. eauto 7.
  - rewrite (proj2 (leb_key x y)) in H; [discriminate|]. eauto 7.
  - apply ltb_key. eauto 7.
Qed.

Lemma feq_refl x : is_nan x = false -> feq x x.
Proof. intros H. keys. apply eqb_key. eauto. Qed.

Lemma feq_sym x y : feq x y -> feq y x.
Proof. intros H. keys. apply eqb_key. eauto. Qed.

Lemma feq_trans x y z : feq x y -> feq y z -> feq x z.
Proof. intros H1 H2. keys. apply eqb_key. eauto. Qed.


Lemma ltb_not_feq x y : (x <? y)%float = true -> feq x y -> False.
Proof. intros H1 H2. keys. eapply lex_lt_irrefl; eauto. Qed.

Lemma ltb_asym x y : (x <? y)%float = true -> (y <? x)%float = true -> False.
Proof.
  intros H1 H2. keys. eapply lex_lt_irrefl, lex_lt_trans; eauto.
Qed.

Lemma leb_cases x y :
  (x <=? y)%float = true -> (x <? y)%float = true \/ feq x y.
Proof.
  intros H. keys.
  match goal with H : _ \/ _ |- _ => destruct H as [H|H] end.
  - left. apply ltb_key. eauto 7.
  - right. apply eqb_key. subst. eauto.
Qed.

(** Sums of squares are numbers. *)

Lemma Prim2SF_zero : Prim2SF 0%float = S754_zero false.
Proof. reflexivity. Qed.

Lemma nonneg_zero : nonneg 0%float.
Proof. exact eq_refl. Qed.

Lemma add_zero_r x : nonneg x -> (x + 0)%float = x.
Proof.
  unfold nonneg. intros H. apply Prim2SF_inj. rewrite add_spec, Prim2SF_zero.
  destruct (Prim2SF x) as [[]|[]| |[] m e]; cbn in H; try discriminate;
    try tauto; reflexivity.
Qed.

Lemma mul_nan_l x y : is_nan x = true -> is_nan (x * y)%float = true.
Proof.
  rewrite !is_nan_SF, mul_spec. intros ->. reflexivity.
Qed.

Lemma square_nonneg x : is_nan (x * x)%float = false -> nonneg (x * x)%float.
Proof.
  intros H. apply mul_self_nonneg.
  destruct (is_nan x) eqn:E; auto.
  rewrite (mul_nan_l x x E) in H. discriminate.
Qed.

(** * The selector: [find_special_twist_angle] *)

Lemma array_equal_iff a : forall b, np.array_equal a b = true <-> grid_eq a b.
Proof.
  unfold grid_eq.
  induction a as [|x a IH]; intros [|y b]; cbn; split; intros H;
    try discriminate; try constructor; try solve [inversion H].
  - apply andb_prop in H. apply H.
  - apply IH. apply andb_prop in H. apply H.
  - inversion H; subst. apply andb_true_intro. split; [assumption|].
    now apply IH.
Qed.

Lemma same_grid_iff SF SFi :
  same_grid SF SFi = true <-> grid_eq (run_grid SFi) (SF_col pd.G SF).
Proof. apply array_equal_iff. Qed.



(** The residual of the loop is the sum of the squared differences. *)

Lemma fold_padding (l : list float) : forall acc,
  nonneg acc ->
  fold_left PrimFloat.add
    (map (fun x => if is_nan x then 0%float else x)
       (map (fun d => np.power2 (abs d)) (map (fun _ => nan) l))) acc = acc.
Proof.
  induction l as [|x l IH]; intros acc Hacc; cbn; auto.
  rewrite add_zero_r by assumption. now apply IH.
Qed.

Lemma fold_residual a : forall b acc,
  nonneg acc ->
  fold_left PrimFloat.add
    (map (fun x => if is_nan x then 0%float else x)
       (map (fun d => np.power2 (abs d)) (pd.series_sub a b))) acc =
  fold_left PrimFloat.add
    (filter pd.notna (map (fun ab => sq_diff (fst ab) (snd ab)) (combine a b)))
    acc
  /\ nonneg (fold_left PrimFloat.add
    (filter pd.notna (map (fun ab => sq_diff (fst ab) (snd ab)) (combine a b)))
    acc).
Proof.
  induction a as [|x a IH]; intros b acc Hacc.
  - destruct b as [|y b]; cbn [pd.series_sub combine map filter fold_left].
    + auto.
    + split; [|assumption]. apply (fold_padding (y :: b)). assumption.
  - destruct b as [|y b].
    + cbn [pd.series_sub combine filter]. split; [|assumption].
      apply (fold_padding (x :: a)). assumption.
    + assert (Ht : np.power2 (abs (x - y)) = sq_diff x y)
        by (unfold np.power2, sq_diff; apply mul_abs).
      cbn [pd.series_sub combine map filter fst snd]. rewrite Ht.
      change (pd.notna (sq_diff x y)) with (negb (is_nan (sq_diff x y))).
      destruct (is_nan (sq_diff x y)) eqn:E; cbn [negb fold_left].
      * rewrite add_zero_r by assumption. now apply IH.
      * apply IH. apply add_nonneg; [assumption|]. now apply square_nonneg.
Qed.

Lemma residual_Residual SF SFi : residual SF SFi = Residual SF SFi.
Proof.
  unfold residual, Residual, pd.series_sum, pd.fsum, run_S_G.
  apply fold_residual. exact nonneg_zero.
Qed.


Lemma residuals_loop_ok SF raw_SF : forall residuals,
  Forall (fun SFi => grid_eq (run_grid SFi) (SF_col pd.G SF)) raw_SF ->
  residuals_loop raw_SF SF residuals =
  Ok (residuals ++ map (Residual SF) raw_SF).
Proof.
  induction raw_SF as [|SFi raw_SF IH]; intros residuals Hall; cbn.
  - now rewrite app_nil_r.
  - inversion Hall as [|? ? Hg Hrest]; subst.
    apply same_grid_iff in Hg. rewrite Hg. cbn [negb].
    rewrite IH by assumption.
    rewrite <- app_assoc, residual_Residual. reflexivity.
Qed.


Lemma residuals_loop_raises SF raw_SF : forall residuals,
  Exists (fun SFi => same_grid SF SFi = false) raw_SF ->
  residuals_loop raw_SF SF residuals = Raise ValueError.
Proof.
  induction raw_SF as [|SFi raw_SF IH]; intros residuals Hex.
  - inversion Hex.
  - cbn. destruct (same_grid SF SFi) eqn:E; cbn [negb]; [|reflexivity].
    apply IH. inversion Hex; subst; [congruence|assumption].
Qed.

Lemma not_grid_eq_same_grid SF SFi :
  ~ grid_eq (run_grid SFi) (SF_col pd.G SF) -> same_grid SF SFi = false.
Proof.
  intros H. destruct (same_grid SF SFi) eqn:E; auto.
  apply same_grid_iff in E. contradiction.
Qed.

(** C3.  When the grouped G-magnitudes of some run are not the G-magnitudes
    of the table of averages, [find_special_twist_angle] raises
    [ValueError]: no run is selected. *)
Theorem find_special_twist_angle_inconsistent_grid
    (raw_SF : list pd.DataFrame) (SF : list SFrow) :
  Exists (fun SFi => ~ grid_eq (run_grid SFi) (SF_col pd.G SF)) raw_SF ->
  find_special_twist_angle raw_SF SF = Raise ValueError.
Proof.
  intros Hex. unfold find_special_twist_angle.
  rewrite residuals_loop_raises; [reflexivity|].
  apply Exists_exists in Hex. destruct Hex as (SFi & Hin & Hne).
  apply Exists_exists. exists SFi. split; [assumption|].
  now apply not_grid_eq_same_grid.
Qed.

(** * The keys of a grouping *)

Lemma seen_false k ks :
  pd.seen k ks = false -> Forall (fun k' => ~ feq k' k) ks.
Proof.
  induction ks as [|k' ks IH]; cbn; intros H; constructor.
  - apply orb_false_elim in H. unfold feq. destruct H as [H _].
    rewrite H. discriminate.
  - apply IH. apply orb_false_elim in H. apply H.
Qed.

Lemma seen_true k ks :
  pd.seen k ks = true -> exists k', In k' ks /\ feq k' k.
Proof.
  induction ks as [|k' ks IH]; cbn; intros H; [discriminate|].
  apply orb_prop in H. destruct H as [H|H].
  - exists k'. auto.
  - destruct (IH H) as (k'' & Hin & Hf). exists k''. auto.
Qed.

Lemma pairwise_distinct_snoc ks k :
  pairwise_distinct ks -> Forall (fun k' => ~ feq k' k) ks ->
  pairwise_distinct (ks ++ [k]).
Proof.
  induction ks as [|k0 ks IH]; cbn; intros Hd Hk.
  - auto.
  - destruct Hd as [Hd0 Hd]. inversion Hk; subst. split.
    + apply Forall_app. split; [assumption|]. constructor; auto.
    + now apply IH.
Qed.

Lemma uniques_spec xs : forall acc,
  Forall not_nan acc -> pairwise_distinct acc ->
  Forall not_nan (pd.uniques acc xs) /\
  pairwise_distinct (pd.uniques acc xs) /\
  (forall k, In k (pd.uniques acc xs) -> In k acc \/ In k xs) /\
  (forall k, In k acc \/ (In k xs /\ not_nan k) ->
             exists k', In k' (pd.uniques acc xs) /\ feq k' k).
Proof.
  induction xs as [|x xs IH]; intros acc Hn Hd.
  - cbn. repeat split; auto.
    intros k [Hk|[[] _]]. exists k. split; [assumption|].
    apply feq_refl. rewrite Forall_forall in Hn. now apply Hn.
  - cbn [pd.uniques].
    destruct (is_nan x) eqn:Ex; cbn [orb].
    { destruct (IH acc Hn Hd) as (H1 & H2 & H3 & H4).
      repeat split; auto.
      - intros k Hk. destruct (H3 k Hk); cbn; auto.
      - intros k [Hk|[[Hk|Hk] Hnk]]; auto.
        subst. unfold not_nan in Hnk. congruence. }
    destruct (pd.seen x acc) eqn:Es.
    { destruct (IH acc Hn Hd) as (H1 & H2 & H3 & H4).
      repeat split; auto.
      - intros k Hk. destruct (H3 k Hk); cbn; auto.
      - intros k [Hk|[[Hk|Hk] Hnk]]; auto.
        subst. apply seen_true in Es. destruct Es as (k' & Hin & Hf).
        destruct (H4 k' (or_introl Hin)) as (k'' & Hin' & Hf').
        exists k''. split; [assumption|]. eapply feq_trans; eauto. }
    assert (Hn' : Forall not_nan (acc ++ [x])).
    { apply Forall_app. split; [assumption|]. constructor; auto. }
    assert (Hd' : pairwise_distinct (acc ++ [x])).
    { apply pairwise_distinct_snoc; auto using seen_false. }
    destruct (IH (acc ++ [x]) Hn' Hd') as (H1 & H2 & H3 & H4).
    repeat split; auto.
    + intros k Hk. destruct (H3 k Hk) as [H|H].
      * apply in_app_or in H. destruct H as [H|[H|[]]]; cbn; auto.
      * cbn; auto.
    + intros k [Hk|[[Hk|Hk] Hnk]].
      * apply H4. left. apply in_or_app. auto.
      * apply H4. left. apply in_or_app. right. now left.
      * apply H4. auto.
Qed.

Lemma insert_In k ks x : In x (pd.insert k ks) <-> x = k \/ In x ks.
Proof.
  induction ks as [|k' ks IH]; cbn.
  - intuition.
  - destruct (k <=? k')%float; cbn; rewrite ?IH; intuition.
Qed.

Lemma sort_In ks x : In x (pd.sort ks) <-> In x ks.
Proof.
  induction ks as [|k ks IH]; cbn; [tauto|].
  rewrite insert_In, IH. intuition.
Qed.

Lemma insert_sorted k ks :
  StronglySorted flt ks -> not_nan k -> Forall not_nan ks ->
  Forall (fun k' => ~ feq k k') ks ->
  StronglySorted flt (pd.insert k ks).
Proof.
  induction ks as [|k' ks IH]; intros Hs Hk Hn Hd; cbn.
  - repeat constructor.
  - inversion Hs as [|? ? Hs' Hlt]; subst.
    inversion Hn as [|? ? Hk' Hn']; subst.
    inversion Hd as [|? ? Hkk' Hd']; subst.
    destruct (k <=? k')%float eqn:E.
    + assert (Hlt' : flt k k') by (destruct (leb_cases _ _ E); tauto).
      constructor; [assumption|]. constructor; [assumption|].
      eapply Forall_impl; [|exact Hlt]. intros a Ha.
      eapply ltb_trans; eauto.
    + assert (Hlt' : flt k' k) by now apply not_leb_ltb.
      constructor; [now apply IH|].
      apply Forall_forall. intros a Ha. apply (proj1 (insert_In _ _ _)) in Ha.
      destruct Ha as [->|Ha]; [assumption|].
      rewrite Forall_forall in Hlt. now apply Hlt.
Qed.

Lemma sort_sorted ks :
  Forall not_nan ks -> pairwise_distinct ks -> StronglySorted flt (pd.sort ks).
Proof.
  induction ks as [|k ks IH]; intros Hn Hd; cbn.
  - constructor.
  - inversion Hn as [|? ? Hnk Hn']; subst. destruct Hd as [Hk Hd].
    apply insert_sorted.
    + now apply IH.
    + assumption.
    + apply Forall_forall. intros a Ha. apply (proj1 (sort_In _ _)) in Ha.
      rewrite Forall_forall in Hn'. now apply Hn'.
    + apply Forall_forall. intros a Ha. apply (proj1 (sort_In _ _)) in Ha.
      rewrite Forall_forall in Hk. now apply Hk.
Qed.

(** The keys of a grouping are numbers, strictly ascending, and they are
    the values of the column ['G'] that are numbers. *)
Lemma group_keys_spec df :
  Forall not_nan (pd.group_keys df) /\
  StronglySorted flt (pd.group_keys df) /\
  (forall k, In k (pd.group_keys df) -> In k (map pd.G df)) /\
  (forall k, In k (map pd.G df) -> not_nan k ->
             exists k', In k' (pd.group_keys df) /\ feq k' k).
Proof.
  unfold pd.group_keys.
  destruct (uniques_spec (map pd.G df) [] (Forall_nil _) I)
    as (H1 & H2 & H3 & H4).
  repeat split.
  - apply Forall_forall. intros k Hk. apply (proj1 (sort_In _ _)) in Hk.
    rewrite Forall_forall in H1. now apply H1.
  - now apply sort_sorted.
  - intros k Hk. apply (proj1 (sort_In _ _)) in Hk. destruct (H3 k Hk) as [[]|]; auto.
  - intros k Hk Hnk. destruct (H4 k (or_intror (conj Hk Hnk))) as (k' & Hin & Hf).
    exists k'. split; [now apply (proj2 (sort_In _ _))|assumption].
Qed.

(** * The table of averages: [average_SF] *)

Lemma groupby_agg_G agg df : map pd.G (pd.groupby_agg agg df) = pd.group_keys df.
Proof.
  unfold pd.groupby_agg. rewrite map_map. cbn. apply map_id.
Qed.

Lemma groupby_agg_length agg df :
  length (pd.groupby_agg agg df) = length (pd.group_keys df).
Proof. unfold pd.groupby_agg. apply length_map. Qed.

Lemma add_errors_means SF : forall sems,
  length SF = length sems -> map means (add_errors SF sems) = SF.
Proof.
  induction SF as [|m SF IH]; intros [|e sems] H; cbn in *; try discriminate.
  - reflexivity.
  - f_equal. apply IH. lia.
Qed.

Lemma average_SF_Ok raw_SF :
  raw_SF <> [] ->
  exists SF, average_SF raw_SF = Ok SF /\
    map means SF = pd.groupby_agg pd.mean (List.concat raw_SF).
Proof.
  intros Hne. destruct raw_SF as [|SFi raw_SF]; [congruence|].
  unfold average_SF. cbn [pd.concat bind]. eexists. split; [reflexivity|].
  apply add_errors_means. now rewrite !groupby_agg_length.
Qed.

Lemma SF_col_means col SF : SF_col col SF = map col (map means SF).
Proof. unfold SF_col. now rewrite map_map. Qed.

Lemma grid_eq_refl g : Forall not_nan g -> grid_eq g g.
Proof.
  unfold grid_eq. induction 1; constructor; auto using feq_refl.
Qed.

Lemma fold_sq_diff_diag a : forall acc,
  acc = 0%float ->
  fold_left PrimFloat.add
    (filter pd.notna (map (fun ab => sq_diff (fst ab) (snd ab)) (combine a a)))
    acc = 0%float.
Proof.
  induction a as [|x a IH]; intros acc ->; cbn [combine map filter fst snd].
  - reflexivity.
  - unfold sq_diff at 1 2. destruct (sub_diag x) as [E|E].
    + rewrite E. cbn. now apply IH.
    + unfold pd.notna at 1. rewrite (mul_nan_l _ _ E). cbn [negb].
      now apply IH.
Qed.

(** What follows when the table of averages is the run's own grouping. *)
Lemma own_grouping_selected SF SFi :
  map means SF = pd.groupby_agg pd.mean SFi ->
  grid_eq (run_grid SFi) (SF_col pd.G SF) /\
  Residual SF SFi = 0%float /\
  find_special_twist_angle [SFi] SF = Ok 0.
Proof.
  intros Hmeans.
  assert (Hgrid : grid_eq (run_grid SFi) (SF_col pd.G SF)).
  { rewrite SF_col_means, Hmeans. unfold run_grid.
    apply grid_eq_refl. rewrite groupby_agg_G. apply group_keys_spec. }
  assert (Hres : Residual SF SFi = 0%float).
  { unfold Residual, run_S_G. rewrite SF_col_means, Hmeans.
    now apply fold_sq_diff_diag. }
  repeat split; auto.
  unfold find_special_twist_angle.
  rewrite residuals_loop_ok by (constructor; auto).
  cbn [map app bind]. rewrite Hres. reflexivity.
Qed.

Lemma single_run_table SFi :
  exists SF, average_SF [SFi] = Ok SF /\
             map means SF = pd.groupby_agg pd.mean SFi.
Proof.
  destruct (average_SF_Ok [SFi]) as (SF & HSF & Hmeans); [discriminate|].
  cbn [List.concat] in Hmeans. rewrite app_nil_r in Hmeans. eauto.
Qed.

(** C10.  With one run, the grouped G-magnitudes of the run are those of
    the table of averages, the residual of the run is exactly zero, and the
    run selected is run 0. *)
Theorem single_run_selected (SFi : pd.DataFrame) :
  exists SF,
    average_SF [SFi] = Ok SF /\
    grid_eq (run_grid SFi) (SF_col pd.G SF) /\
    Residual SF SFi = 0%float /\
    find_special_twist_angle [SFi] SF = Ok 0.
Proof.
  destruct (single_run_table SFi) as (SF & HSF & Hmeans).
  exists SF. split; [assumption|]. now apply own_grouping_selected.
Qed.

Lemma main_special_twist Gvector_files Coulomb_files S_G_files :
  main Gvector_files Coulomb_files S_G_files =
  (raw_SF <- read_raw_SF (combine (combine Gvector_files Coulomb_files)
                                  S_G_files) ;;
   special_twist raw_SF).
Proof.
  unfold main, read_and_average_SF, special_twist.
  destruct (read_raw_SF _) as [raw_SF|e]; cbn [bind]; [|reflexivity].
  destruct (average_SF raw_SF) as [SF|e]; reflexivity.
Qed.

(** With one directory whose files are read, [main] reports run 0. *)
Lemma main_single_run Gvector_file Coulomb_file S_G_file SFi :
  read_SFi (Gvector_file, Coulomb_file, S_G_file) = Ok SFi ->
  main [Gvector_file] [Coulomb_file] [S_G_file] = Ok 0.
Proof.
  intros H. rewrite main_special_twist. cbn [combine read_raw_SF].
  rewrite H. cbn [bind]. unfold special_twist.
  destruct (single_run_table SFi) as (SF & -> & Hmeans). cbn [bind].
  now apply own_grouping_selected.
Qed.

(** * The selection does not read the potentials *)

Section Potentials.

Variables df1 df2 : pd.DataFrame.
Hypothesis same_G_and_S_G : G_and_S_G df1 = G_and_S_G df2.

Lemma G_col_eq : map pd.G df1 = map pd.G df2.
Proof.
  assert (H : forall df, map pd.G df = map fst (G_and_S_G df))
    by (intros df; unfold G_and_S_G; now rewrite map_map).
  now rewrite !H, same_G_and_S_G.
Qed.

Lemma group_keys_eq : pd.group_keys df1 = pd.group_keys df2.
Proof. unfold pd.group_keys. now rewrite G_col_eq. Qed.

Lemma get_group_S_G_eq k :
  map pd.S_G (pd.get_group df1 k) = map pd.S_G (pd.get_group df2 k).
Proof.
  assert (H : forall df, map pd.S_G (pd.get_group df k) =
            map snd (filter (fun p => (fst p =? k)%float) (G_and_S_G df))).
  { intros df. unfold pd.get_group, G_and_S_G.
    induction df as [|r df IH]; cbn; [reflexivity|].
    destruct (pd.G r =? k)%float; cbn; now rewrite IH. }
  now rewrite !H, same_G_and_S_G.
Qed.

Lemma groupby_agg_G_eq agg :
  map pd.G (pd.groupby_agg agg df1) = map pd.G (pd.groupby_agg agg df2).
Proof. now rewrite !groupby_agg_G, group_keys_eq. Qed.

Lemma groupby_agg_S_G_eq agg :
  map pd.S_G (pd.groupby_agg agg df1) = map pd.S_G (pd.groupby_agg agg df2).
Proof.
  unfold pd.groupby_agg. rewrite !map_map. cbn. rewrite group_keys_eq.
  apply map_ext. intros k. now rewrite get_group_S_G_eq.
Qed.

End Potentials.

Lemma residuals_loop_congr SF1 SF2 raw1 : forall raw2 residuals,
  map G_and_S_G raw1 = map G_and_S_G raw2 ->
  SF_col pd.G SF1 = SF_col pd.G SF2 ->
  SF_col pd.S_G SF1 = SF_col pd.S_G SF2 ->
  residuals_loop raw1 SF1 residuals = residuals_loop raw2 SF2 residuals.
Proof.
  induction raw1 as [|SFi raw1 IH]; intros [|SFj raw2] residuals H HG HS;
    cbn in H; try discriminate; [reflexivity|].
  injection H as Hij Hrest. cbn.
  assert (Hr : residual SF1 SFi = residual SF2 SFj).
  { unfold residual. now rewrite HS, (groupby_agg_S_G_eq _ _ Hij). }
  assert (Hg : same_grid SF1 SFi = same_grid SF2 SFj).
  { unfold same_grid. now rewrite HG, (groupby_agg_G_eq _ _ Hij). }
  rewrite Hr, Hg. destruct (same_grid SF2 SFj); cbn [negb]; auto.
Qed.

Lemma G_and_S_G_concat raw :
  G_and_S_G (List.concat raw) = List.concat (map G_and_S_G raw).
Proof. unfold G_and_S_G. apply concat_map. Qed.

(** C9.  Two inputs whose runs hold the same G-magnitudes and the same
    structure factors, whatever their Coulomb potentials, give the same
    outcome: the same run is selected, or both analyses fail alike. *)
Theorem special_twist_ignores_V_G (raw1 raw2 : list pd.DataFrame) :
  map G_and_S_G raw1 = map G_and_S_G raw2 ->
  special_twist raw1 = special_twist raw2.
Proof.
  intros H. unfold special_twist.
  destruct raw1 as [|SFi raw1], raw2 as [|SFj raw2]; try discriminate;
    [reflexivity|].
  destruct (average_SF_Ok (SFi :: raw1)) as (SF1 & -> & M1); [discriminate|].
  destruct (average_SF_Ok (SFj :: raw2)) as (SF2 & -> & M2); [discriminate|].
  cbn [bind]. unfold find_special_twist_angle.
  assert (Hall : G_and_S_G (List.concat (SFi :: raw1)) =
                 G_and_S_G (List.concat (SFj :: raw2)))
    by now rewrite !G_and_S_G_concat, H.
  rewrite (residuals_loop_congr SF1 SF2 (SFi :: raw1) (SFj :: raw2) [] H).
  - reflexivity.
  - rewrite !SF_col_means, M1, M2. now apply groupby_agg_G_eq.
  - rewrite !SF_col_means, M1, M2. now apply groupby_agg_S_G_eq.
Qed.

(** * The table of averages and the order of the rows *)

Lemma add_errors_map (f e : float -> pd.row) ks :
  add_errors (map f ks) (map e ks) =
  map (fun k => {| means := f k;
                   G_error := pd.G (e k);
                   V_G_error := pd.V_G (e k);
                   S_G_error := pd.S_G (e k) |}) ks.
Proof. induction ks as [|k ks IH]; cbn; [reflexivity|now rewrite IH]. Qed.

(** One row per key, in the order of the keys. *)
Lemma average_SF_rows raw_SF :
  raw_SF <> [] ->
  average_SF raw_SF =
  Ok (map (fun k => row_of_group k (pd.get_group (List.concat raw_SF) k))
          (pd.group_keys (List.concat raw_SF))).
Proof.
  intros Hne. destruct raw_SF as [|SFi raw_SF]; [congruence|].
  unfold average_SF. cbn [pd.concat bind]. f_equal.
  unfold pd.groupby_agg. now rewrite add_errors_map.
Qed.







(** * Reading the grid: [read_and_generate_Gvector_magnitudes] *)

Lemma concat_nonblank (f : np.textfile) :
  List.concat (filter (fun line => negb (np.blank line)) f) = List.concat f.
Proof.
  induction f as [|line f IH]; cbn; [reflexivity|].
  destruct line; cbn; now rewrite IH.
Qed.

(** The array read holds the values of the file. *)
Lemma loadtxt_ravel f a : np.loadtxt f = Ok a -> np.ravel a = List.concat f.
Proof.
  unfold np.loadtxt. rewrite <- (concat_nonblank f).
  destruct (filter _ f) as [|first rest]; intros H.
  - injection H as <-. reflexivity.
  - destruct (forallb _ rest); [|discriminate].
    destruct first as [|x [|y first]], rest as [|second rest];
      injection H as <-; cbn; rewrite ?app_nil_r; reflexivity.
Qed.

Lemma loadtxt_size f a : np.loadtxt f = Ok a -> np.size a = count_values f.
Proof.
  intros H. unfold np.size, count_values. now rewrite (loadtxt_ravel f a H).
Qed.

Lemma reshape3_Ok a n g :
  np.reshape3 a n = Ok g -> np.size a = n * 3 /\ g = np.rows3 (np.ravel a).
Proof.
  unfold np.reshape3. destruct (Nat.eqb_spec (np.size a) (n * 3)); intros H.
  - injection H as <-. auto.
  - discriminate.
Qed.

(** C7.  A grid file whose number of values is not a multiple of 3 makes
    [read_and_generate_Gvector_magnitudes] raise an exception: no magnitudes
    are returned. *)
Theorem Gvector_magnitudes_not_multiple_of_3 (Gvector_file : np.textfile) :
  count_values Gvector_file mod 3 <> 0 ->
  raises (read_and_generate_Gvector_magnitudes Gvector_file).
Proof.
  intros Hmod. unfold raises, read_and_generate_Gvector_magnitudes.
  destruct (np.loadtxt Gvector_file) as [a|e] eqn:Hload; cbn [bind]; [|eauto].
  destruct (np.shape0 a) as [n|e] eqn:Hshape; cbn [bind]; [|eauto].
  destruct (np.reshape3 a (n / 3)) as [g|e] eqn:Hre; cbn [bind]; [|eauto].
  exfalso. apply Hmod.
  apply reshape3_Ok in Hre. destruct Hre as [Hsize _].
  rewrite <- (loadtxt_size _ _ Hload), Hsize. apply Nat.Div0.mod_mul.
Qed.




(** The two layouts that are read as a one-dimensional array. *)
Lemma loadtxt_one_per_line (xs : list float) :
  length xs <> 1 -> np.loadtxt (map (fun x => [x]) xs) = Ok (np.Arr1 xs).
Proof.
  intros H. unfold np.loadtxt.
  assert (E : filter (fun line => negb (np.blank line)) (map (fun x => [x]) xs)
              = map (fun x => [x]) xs).
  { clear H. induction xs as [|x xs IH]; cbn; [reflexivity|now rewrite IH]. }
  rewrite E. destruct xs as [|x [|y xs]]; [reflexivity|cbn in H; lia|].
  assert (F : forallb (fun line => length line =? length [x])
                (map (fun x => [x]) (y :: xs)) = true).
  { apply forallb_forall. intros l Hl. apply in_map_iff in Hl.
    destruct Hl as (? & <- & _). reflexivity. }
  change (map (fun x => [x]) (x :: y :: xs))
    with ([x] :: map (fun x => [x]) (y :: xs)).
  lazy beta match. rewrite F. cbn [map]. do 2 f_equal. cbn. do 2 f_equal.
  clear. induction xs as [|z xs IH]; cbn; [reflexivity|now rewrite IH].
Qed.

Lemma loadtxt_one_line (xs : list float) :
  length xs <> 1 -> np.loadtxt [xs] = Ok (np.Arr1 xs).
Proof.
  intros H. destruct xs as [|x [|y xs]]; cbn in *; try reflexivity. lia.
Qed.

(** * Building the frame of a run: [read_SFi] *)


(** * The names of the files *)

Lemma prefix_iff p : forall s,
  String.prefix p s = true <-> exists post, s = String.append p post.
Proof.
  induction p as [|a p IH]; intros s; cbn.
  - destruct s; split; eauto.
  - destruct s as [|b s]; cbn.
    + split; [discriminate|]. intros [post H]. discriminate.
    + destruct (ascii_dec a b) as [->|Hne].
      * rewrite IH. split; intros [post H]; exists post.
        -- now rewrite H.
        -- now injection H.
      * split; [discriminate|]. intros [post H]. injection H as H _.
        congruence.
Qed.

Lemma contains_iff sub s : str.contains sub s = true <-> occurs sub s.
Proof.
  unfold occurs. induction s as [|c s IH]; cbn [str.contains].
  - rewrite orb_false_r, prefix_iff. split.
    + intros [post H]. exists EmptyString, post. exact H.
    + intros (pre & post & H). destruct pre; cbn in H; [eauto|discriminate].
  - rewrite orb_true_iff, prefix_iff, IH. split.
    + intros [[post H]|(pre & post & H)].
      * exists EmptyString, post. exact H.
      * exists (String c pre), post. cbn. now rewrite H.
    + intros (pre & post & H). destruct pre as [|c' pre]; cbn in H.
      * left. eauto.
      * right. injection H as _ H. eauto.
Qed.

(** C8, as the code has it.  [".csv"] is appended to the name given to
    [--write] if and only if [".csv"] occurs nowhere in the name: a name in
    which it occurs, at the end or elsewhere, is kept as it is. *)
Theorem csv_file_name_appends_unless_occurs (csv_file : string) :
  (occurs ".csv" csv_file -> csv_file_name csv_file = csv_file) /\
  (~ occurs ".csv" csv_file ->
   csv_file_name csv_file = String.append csv_file ".csv").
Proof.
  unfold csv_file_name. split; intros H.
  - apply contains_iff in H. now rewrite H.
  - destruct (str.contains ".csv" csv_file) eqn:E; [|reflexivity].
    apply contains_iff in E. contradiction.
Qed.

(** * The properties at concrete inputs *)

Import Examples.


(** The tie between the runs 0 and 2 goes to run 0. *)
Lemma tie_runs_selected : special_twist tie_runs = Ok 0.
Proof. vm_compute. reflexivity. Qed.

(** C3 at two runs, the second on a finer grid. *)
Lemma find_special_twist_angle_inconsistent_grid_witness :
  find_special_twist_angle finer_runs (table_of finer_runs) = Raise ValueError.
Proof.
  apply find_special_twist_angle_inconsistent_grid.
  apply Exists_cons_hd. intros H.
  apply (proj2 (array_equal_iff _ _)) in H. vm_compute in H. discriminate.
Defined.

(** C2 at two runs on the grid {1, 2}: the standard error of the mean of
    the G-magnitudes of a group is 0, and the column [G_error] holds the
    G-magnitudes 1 and 2 themselves. *)
Theorem average_SF_G_error_is_G :
  exists raw_SF SF,
    read_and_average_SF
      [grid_two_vectors; grid_two_vectors]
      [[[2]; [4]]; [[4]; [6]]]%float
      [[[10]; [20]]; [[30]; [40]]]%float = Ok (raw_SF, SF) /\
    SF_col pd.G SF = [1; 2]%float /\
    SF_col pd.S_G SF = [20; 30]%float /\
    map G_error SF = [1; 2]%float /\
    pd.sem [1; 1]%float = 0%float /\
    pd.sem [2; 2]%float = 0%float.
Proof.
  do 2 eexists. split; [vm_compute; reflexivity|].
  repeat split; vm_compute; reflexivity.
Qed.







(** C7 at a grid file of eight numbers. *)
Lemma Gvector_magnitudes_not_multiple_of_3_witness :
  raises (read_and_generate_Gvector_magnitudes grid_eight_numbers).
Proof.
  apply Gvector_magnitudes_not_multiple_of_3. cbn. discriminate.
Defined.

(** C8 as stated fails: a name in which [".csv"] occurs before the end
    does not end in [".csv"], and nothing is appended to it. *)
Lemma csv_file_name_keeps_inner_csv :
  str.endswith "a.csv.bak" ".csv" = false /\
  csv_file_name "a.csv.bak" = "a.csv.bak"%string /\
  csv_twist_name "a.csv.bak" = "a_Twist_angle_Num_map.csv.bak"%string.
Proof. repeat split; vm_compute; reflexivity. Qed.

(** C9 at two runs read with two sets of potentials. *)
Lemma special_twist_ignores_V_G_witness :
  special_twist [[r 1 0 10; r 2 0 20]; [r 1 0 30; r 2 0 40]] =
  special_twist [[r 1 5 10; r 2 6 20]; [r 1 7 30; r 2 8 40]].
Proof.
  apply special_twist_ignores_V_G. reflexivity.
Defined.

(** * Further properties of the script *)

(** ** Finding the files: [find_SF_outputs] *)

Lemma find_SF_outputs_loop_spec fs directories :
  forall Gvector_files Coulomb_files S_G_files,
  find_SF_outputs_loop fs directories Gvector_files Coulomb_files S_G_files =
  if forallb (complete fs) directories
  then Ok (Gvector_files ++ map Gvector_path directories,
           Coulomb_files ++ map Coulomb_path directories,
           S_G_files ++ map S_G_path directories)
  else Raise ValueError.
Proof.
  induction directories as [|path directories IH]; intros G V S.
  - cbn. now rewrite !app_nil_r.
  - cbn [find_SF_outputs_loop forallb map]. unfold complete at 1.
    destruct (os.isfile fs (Gvector_path path)); cbn [negb andb];
      [|reflexivity].
    destruct (os.isfile fs (Coulomb_path path)); cbn [negb andb];
      [|reflexivity].
    destruct (os.isfile fs (S_G_path path)); cbn [negb andb];
      [|reflexivity].
    rewrite IH. destruct (forallb (complete fs) directories); [|reflexivity].
    now rewrite <- !app_assoc.
Qed.

(** X1.  [find_SF_outputs] returns the paths of the three files of every
    directory, in the order of the directories, when every directory holds
    its three files, and raises [ValueError] as soon as one file of one
    directory is missing, whatever the other directories hold. *)
Theorem find_SF_outputs_all_or_nothing (fs : os.filesystem) (directories : list string) :
  find_SF_outputs fs directories =
  if forallb (complete fs) directories
  then Ok (map Gvector_path directories,
           map Coulomb_path directories,
           map S_G_path directories)
  else Raise ValueError.
Proof.
  unfold find_SF_outputs. now rewrite find_SF_outputs_loop_spec.
Qed.

(** ** The selector *)

Lemma argmin_scan_bound ip : forall mp min_ind i,
  min_ind < i -> np.argmin_scan mp min_ind i ip < i + length ip.
Proof.
  induction ip as [|x ip IH]; intros mp min_ind i H; cbn.
  - destruct (is_nan mp); lia.
  - destruct (is_nan mp); [lia|].
    destruct (negb (mp <=? x)%float).
    + specialize (IH x i (S i)). lia.
    + specialize (IH mp min_ind (S i)). lia.
Qed.

Lemma argmin_bound rs i : np.argmin rs = Ok i -> i < length rs.
Proof.
  destruct rs as [|x ip]; cbn; intros H; [discriminate|].
  injection H as <-. pose proof (argmin_scan_bound ip x 0 1). lia.
Qed.

Lemma residuals_loop_spec SF raw_SF : forall residuals,
  residuals_loop raw_SF SF residuals =
  if forallb (same_grid SF) raw_SF
  then Ok (residuals ++ map (residual SF) raw_SF)
  else Raise ValueError.
Proof.
  induction raw_SF as [|SFi raw_SF IH]; intros residuals; cbn.
  - now rewrite app_nil_r.
  - destruct (same_grid SF SFi); cbn [negb andb]; [|reflexivity].
    rewrite IH. destruct (forallb (same_grid SF) raw_SF); [|reflexivity].
    now rewrite <- app_assoc.
Qed.

Lemma forallb_same_grid SF raw_SF :
  forallb (same_grid SF) raw_SF = true <->
  Forall (fun SFi => grid_eq (run_grid SFi) (SF_col pd.G SF)) raw_SF.
Proof.
  rewrite forallb_forall, Forall_forall.
  split; intros H SFi Hin; apply same_grid_iff; auto.
Qed.

(** X2.  Whatever the frames, [find_special_twist_angle] either returns an
    index, and then the index is that of one of the runs and every run has
    passed the grid check, or it raises [ValueError], and then there is no
    run or some run has failed the grid check. *)
Theorem find_special_twist_angle_outcome (raw_SF : list pd.DataFrame) (SF : list SFrow) :
  match find_special_twist_angle raw_SF SF with
  | Ok i =>
      i < length raw_SF /\
      Forall (fun SFi => grid_eq (run_grid SFi) (SF_col pd.G SF)) raw_SF
  | Raise e =>
      e = ValueError /\
      (raw_SF = [] \/
       Exists (fun SFi => ~ grid_eq (run_grid SFi) (SF_col pd.G SF)) raw_SF)
  end.
Proof.
  unfold find_special_twist_angle. rewrite residuals_loop_spec.
  destruct (forallb (same_grid SF) raw_SF) eqn:E; cbn [bind app].
  - destruct (np.argmin (map (residual SF) raw_SF)) as [i|e] eqn:A.
    + split; [|now apply forallb_same_grid].
      apply argmin_bound in A. now rewrite length_map in A.
    + destruct raw_SF; cbn in A; [injection A as <-; auto|discriminate].
  - split; [reflexivity|]. right.
    apply Exists_exists.
    assert (H : exists SFi, In SFi raw_SF /\ same_grid SF SFi = false).
    { clear -E. induction raw_SF as [|SFi raw_SF IH]; cbn in E; [discriminate|].
      destruct (same_grid SF SFi) eqn:E1.
      - destruct (IH E) as (x & Hin & Hx). exists x. split; [now right|assumption].
      - exists SFi. split; [now left|assumption]. }
    destruct H as (SFi & Hin & Hf). exists SFi. split; [assumption|].
    intros Hg. apply same_grid_iff in Hg. congruence.
Qed.

Lemma nonneg_leb x : nonneg x -> (0 <=? x)%float = true.
Proof.
  unfold nonneg. intros H. apply leb_key.
  exists (0, 0, 0)%Z, (rank (Prim2SF x)). split; [reflexivity|].
  unfold fkey.
  destruct (Prim2SF x) as [[]|[]| |[] m e]; cbn in H; try discriminate;
    try tauto; (split; [reflexivity|]); cbn; auto; left; lia.
Qed.

(** X3.  The residual the loop computes for a run is a number and is not
    negative, whatever the data hold (NaN and infinities included): the
    entries it compares are always ordered. *)
Theorem residual_is_nonnegative_number (SF : list SFrow) (SFi : pd.DataFrame) :
  is_nan (residual SF SFi) = false /\ (0 <=? residual SF SFi)%float = true.
Proof.
  assert (H : nonneg (residual SF SFi)).
  { rewrite residual_Residual. unfold Residual, pd.fsum.
    apply (fold_residual (SF_col pd.S_G SF) (run_S_G SFi) 0%float nonneg_zero). }
  split; [now apply nonneg_not_nan|now apply nonneg_leb].
Qed.

(** ** Reporting: [main] *)

Lemma read_raw_SF_length files : forall raw_SF,
  read_raw_SF files = Ok raw_SF -> length raw_SF = length files.
Proof.
  induction files as [|f files IH]; intros raw_SF H; cbn in H.
  - injection H as <-. reflexivity.
  - destruct (read_SFi f) as [SFi|e]; cbn [bind] in H; [|discriminate].
    destruct (read_raw_SF files) as [raw|e]; cbn [bind] in H; [|discriminate].
    injection H as <-. cbn. f_equal. now apply IH.
Qed.

Lemma special_twist_bound raw_SF i :
  special_twist raw_SF = Ok i -> i < length raw_SF.
Proof.
  unfold special_twist, find_special_twist_angle.
  destruct (average_SF raw_SF) as [SF|e]; cbn [bind]; [|discriminate].
  rewrite residuals_loop_spec.
  destruct (forallb (same_grid SF) raw_SF); cbn [bind app]; [|discriminate].
  intros A. apply argmin_bound in A. now rewrite length_map in A.
Qed.

Lemma main_bound Gvector_files Coulomb_files S_G_files i :
  main Gvector_files Coulomb_files S_G_files = Ok i ->
  i < length (combine (combine Gvector_files Coulomb_files) S_G_files).
Proof.
  rewrite main_special_twist.
  destruct (read_raw_SF _) as [raw_SF|e] eqn:R; cbn [bind]; [|discriminate].
  intros H. apply special_twist_bound in H.
  now rewrite (read_raw_SF_length _ _ R) in H.
Qed.

(** X4.  When a file of some directory is missing, [main] raises
    [ValueError] and analyses nothing, whatever the other directories hold.
    Otherwise it analyses the files of the directories in their order and
    reports the directory at the index selected, which is always one of the
    directories given: the final lookup never fails. *)
Theorem main_report_outcome (fs : os.filesystem) (directories : list string) :
  main_report fs directories =
  if forallb (complete fs) directories
  then
    special_twist_index <-
      main (map (os.content fs) (map Gvector_path directories))
           (map (os.content fs) (map Coulomb_path directories))
           (map (os.content fs) (map S_G_path directories)) ;;
    Ok (nth special_twist_index directories EmptyString)
  else Raise ValueError.
Proof.
  unfold main_report, find_SF_outputs. rewrite find_SF_outputs_loop_spec.
  destruct (forallb (complete fs) directories); [|reflexivity].
  cbn [bind app].
  destruct (main _ _ _) as [i|e] eqn:M; cbn [bind]; [|reflexivity].
  apply main_bound in M.
  rewrite !length_combine, !length_map in M.
  rewrite (nth_error_nth' directories EmptyString) by lia. reflexivity.
Qed.

(** ** Reading the grid *)

Lemma concat_length_uniform (c : nat) (rows : list (list float)) :
  Forall (fun line => length line = c) rows ->
  length (List.concat rows) = length rows * c.
Proof.
  induction 1 as [|line rows Hl _ IH]; cbn; [reflexivity|].
  rewrite length_app, IH, Hl. lia.
Qed.

(** X5.  A grid file written as a table, two lines or more with the same
    number of values on each, two or more, is never accepted: the first
    axis of the array read is the number of lines, and [reshape] raises
    [ValueError]. *)
Theorem Gvector_magnitudes_table_refused (Gvector_file : np.textfile) (c : nat) :
  2 <= c -> 2 <= length Gvector_file ->
  Forall (fun line => length line = c) Gvector_file ->
  read_and_generate_Gvector_magnitudes Gvector_file = Raise ValueError.
Proof.
  intros Hc Hr Hall.
  assert (Hnb : filter (fun line => negb (np.blank line)) Gvector_file
                = Gvector_file).
  { clear Hr. induction Hall as [|line rows Hl _ IH]; cbn; [reflexivity|].
    destruct line; cbn in *; [lia|]. now rewrite IH. }
  unfold read_and_generate_Gvector_magnitudes, np.loadtxt. rewrite Hnb.
  destruct Gvector_file as [|first [|second rest]]; cbn in Hr; try lia.
  assert (Hrect : forallb (fun line => length line =? length first)
                    (second :: rest) = true).
  { inversion Hall as [|? ? H1 Hrest]; subst.
    apply forallb_forall. intros line Hin. rewrite Forall_forall in Hrest.
    apply Nat.eqb_eq. now apply Hrest. }
  rewrite Hrect.
  assert (Hfirst : length first = c) by now inversion Hall.
  destruct first as [|x [|y first]]; cbn in Hfirst; try lia.
  cbn [bind np.shape0]. unfold np.reshape3, np.size. cbn [np.ravel].
  rewrite (concat_length_uniform c) by assumption.
  set (r := length ((x :: y :: first) :: second :: rest)).
  assert (Hr2 : 2 <= r) by (unfold r; cbn; lia).
  assert (Hdiv : r / 3 * 3 <= r).
  { pose proof (Nat.Div0.mul_div_le r 3). lia. }
  destruct (Nat.eqb_spec (r * c) (r / 3 * 3)) as [E|E]; [nia|reflexivity].
Qed.

Lemma Zsqrtrem_nonneg n : (0 <= n)%Z -> (0 <= fst (Z.sqrtrem n))%Z.
Proof.
  intros H. pose proof (Z.sqrtrem_spec n H) as S.
  destruct (Z.sqrtrem n) as [s r]. cbn. lia.
Qed.

Lemma SFsqrt_nonneg f : sf_sign_is false f -> sf_sign_is false (SF64sqrt f).
Proof.
  destruct f as [[]|[]| |[] m e]; cbn; try congruence; try tauto.
  intros _. unfold SFsqrt_core_binary.
  set (m' := match (e - 2 * _)%Z with
             | Z0 => Z.pos m
             | Z.pos _ => Z.shiftl (Z.pos m) _
             | Z.neg _ => 0%Z
             end).
  assert (Hm' : (0 <= m')%Z).
  { unfold m'. destruct (e - 2 * _)%Z; try lia.
    apply Z.shiftl_nonneg. lia. }
  pose proof (Zsqrtrem_nonneg m' Hm') as Hq.
  destruct (Z.sqrtrem m') as [q r]. cbn [fst] in Hq.
  now apply binary_round_aux_sign.
Qed.

Lemma nan_or_nonneg_square x : nan_or_nonneg (x * x)%float.
Proof.
  unfold nan_or_nonneg. destruct (is_nan (x * x)%float) eqn:E; auto.
  right. now apply square_nonneg.
Qed.

Lemma nan_or_nonneg_add x y :
  nan_or_nonneg x -> nan_or_nonneg y -> nan_or_nonneg (x + y)%float.
Proof.
  unfold nan_or_nonneg. intros [Hx|Hx] [Hy|Hy].
  - left. apply is_nan_SF. apply is_nan_SF in Hx.
    rewrite add_spec, Hx. reflexivity.
  - left. apply is_nan_SF. apply is_nan_SF in Hx.
    rewrite add_spec, Hx. reflexivity.
  - left. apply is_nan_SF. apply is_nan_SF in Hy.
    rewrite add_spec, Hy. destruct (Prim2SF x); reflexivity.
  - right. now apply add_nonneg.
Qed.

Lemma nan_or_nonneg_sqrt x :
  nan_or_nonneg x -> nan_or_nonneg (PrimFloat.sqrt x).
Proof.
  unfold nan_or_nonneg, nonneg. intros [Hx|Hx].
  - left. apply is_nan_SF. apply is_nan_SF in Hx.
    rewrite sqrt_spec, Hx. reflexivity.
  - right. rewrite sqrt_spec. now apply SFsqrt_nonneg.
Qed.

Lemma nan_or_nonneg_not_negative x :
  nan_or_nonneg x -> (x <? 0)%float = false.
Proof.
  intros [Hx|Hx]; destruct (x <? 0)%float eqn:E; auto; exfalso.
  - apply ltb_key in E. destruct E as (a & b & Ha & _).
    assert (is_nan x = false) by (apply is_nan_key; eauto). congruence.
  - pose proof (nonneg_leb x Hx) as L.
    apply (ltb_asym x 0); [assumption|].
    destruct (leb_cases _ _ L) as [H|H]; [assumption|].
    exfalso. apply (ltb_not_feq x 0 E). now apply feq_sym.
Qed.

(** X6.  No magnitude [read_and_generate_Gvector_magnitudes] returns is
    negative: each is NaN or a number with the sign bit clear, so neither
    below zero nor the negative zero. *)
Theorem Gvector_magnitudes_not_negative (Gvector_file : np.textfile) (G : list float) :
  read_and_generate_Gvector_magnitudes Gvector_file = Ok G ->
  Forall (fun g => nan_or_nonneg g /\ (g <? 0)%float = false) G.
Proof.
  unfold read_and_generate_Gvector_magnitudes.
  destruct (np.loadtxt Gvector_file) as [a|e]; cbn [bind]; [|discriminate].
  destruct (np.shape0 a) as [n|e]; cbn [bind]; [|discriminate].
  destruct (np.reshape3 a (n / 3)) as [g|e]; cbn [bind]; [|discriminate].
  intros H. injection H as <-.
  apply Forall_forall. intros m Hm. apply in_map_iff in Hm.
  destruct Hm as ([[x y] z] & <- & _).
  assert (N : nan_or_nonneg (PrimFloat.sqrt (np.dot3 (x, y, z)))).
  { apply nan_or_nonneg_sqrt. cbn.
    repeat apply nan_or_nonneg_add; apply nan_or_nonneg_square. }
  split; [assumption|now apply nan_or_nonneg_not_negative].
Qed.

(** ** The frame of a run *)

Lemma zip3_columns g : forall v s,
  length v = length g -> length s = length g ->
  map pd.G (pd.zip3 g v s) = g /\
  map pd.V_G (pd.zip3 g v s) = v /\
  map pd.S_G (pd.zip3 g v s) = s.
Proof.
  induction g as [|x g IH]; intros [|y v] [|z s] Hv Hs; cbn in *;
    try discriminate; auto.
  destruct (IH v s) as (H1 & H2 & H3); try lia.
  now rewrite H1, H2, H3.
Qed.

Lemma column_Ok n a col :
  pd.column n a = Ok col ->
  length col = n /\
  match a with
  | np.Arr0 x => col = repeat x n
  | np.Arr1 xs => col = xs
  | np.Arr2 _ => False
  end.
Proof.
  destruct a as [x|xs|rows]; cbn.
  - intros H. injection H as <-. split; [apply repeat_length|reflexivity].
  - destruct (Nat.eqb_spec (length xs) n); intros H; [|discriminate].
    injection H as <-. auto.
  - discriminate.
Qed.

(** X7.  A frame [read_SFi] builds has one row per G-vector of the grid
    file, in file order: its column ['G'] holds the magnitudes rounded to
    ten decimals, and the column of a field file read as a one-dimensional
    array holds the values of that file, none dropped and none shifted; a
    field file of a single number fills its column with that number. *)
Theorem read_SFi_rows
    (Gvector_file Coulomb_file S_G_file : np.textfile) (SFi : pd.DataFrame) :
  read_SFi (Gvector_file, Coulomb_file, S_G_file) = Ok SFi ->
  exists G V_G S_G,
    read_and_generate_Gvector_magnitudes Gvector_file = Ok G /\
    read_Vg Coulomb_file = Ok V_G /\
    read_Sg S_G_file = Ok S_G /\
    length SFi = length G /\
    map pd.G SFi = map np.round10 G /\
    map pd.V_G SFi =
      match V_G with
      | np.Arr0 x => repeat x (length G)
      | _ => np.ravel V_G
      end /\
    map pd.S_G SFi =
      match S_G with
      | np.Arr0 x => repeat x (length G)
      | _ => np.ravel S_G
      end /\
    np.ndim V_G <= 1 /\ np.ndim S_G <= 1.
Proof.
  unfold read_SFi.
  destruct (read_and_generate_Gvector_magnitudes Gvector_file) as [G|e];
    cbn [bind]; [|discriminate].
  destruct (read_Vg Coulomb_file) as [V|e]; cbn [bind]; [|discriminate].
  destruct (read_Sg S_G_file) as [S|e]; cbn [bind]; [|discriminate].
  unfold pd.mkDataFrame. rewrite length_map.
  destruct (pd.column (length G) V) as [cv|e] eqn:EV; cbn [bind];
    [|discriminate].
  destruct (pd.column (length G) S) as [cs|e] eqn:ES; cbn [bind];
    [|discriminate].
  intros H. injection H as <-.
  apply column_Ok in EV, ES. destruct EV as [LV MV], ES as [LS MS].
  destruct (zip3_columns (map np.round10 G) cv cs) as (H1 & H2 & H3);
    try (rewrite length_map; assumption).
  exists G, V, S.
  split; [reflexivity|]. split; [reflexivity|]. split; [reflexivity|].
  split; [rewrite <- (length_map pd.G), H1; apply length_map|].
  split; [assumption|].
  split; [rewrite H2; destruct V; cbn; tauto|].
  split; [rewrite H3; destruct S; cbn; tauto|].
  split; [destruct V|destruct S]; cbn; try lia; contradiction.
Qed.

(** X8.  [read_and_average_SF] returns frames and a table exactly when
    every run is read, the frames being those of the runs in their order,
    there is at least one run, and the table is the table of averages of
    the frames; the lists of files are read in step, up to the end of the
    shortest. *)
Theorem read_and_average_SF_Ok
    (Gvector_files Coulomb_files S_G_files : list np.textfile)
    (raw_SF : list pd.DataFrame) (SF : list SFrow) :
  read_and_average_SF Gvector_files Coulomb_files S_G_files = Ok (raw_SF, SF)
  <->
  Forall2 (fun files SFi => read_SFi files = Ok SFi)
          (combine (combine Gvector_files Coulomb_files) S_G_files) raw_SF /\
  raw_SF <> [] /\
  average_SF raw_SF = Ok SF.
Proof.
  unfold read_and_average_SF.
  set (files := combine (combine Gvector_files Coulomb_files) S_G_files).
  assert (R : forall fl raw, read_raw_SF fl = Ok raw <->
              Forall2 (fun f SFi => read_SFi f = Ok SFi) fl raw).
  { induction fl as [|f fl IH]; intros raw; cbn.
    - split; intros H.
      + injection H as <-. constructor.
      + inversion H. reflexivity.
    - destruct (read_SFi f) as [SFi|e] eqn:E; cbn [bind].
      + destruct (read_raw_SF fl) as [raw'|e] eqn:E'; cbn [bind].
        * split; intros H.
          -- injection H as <-. constructor; [assumption|]. now apply IH.
          -- inversion H as [|? ? ? ? H1 H2]; subst.
             apply IH in H2. congruence.
        * split; [discriminate|]. intros H.
          inversion H as [|? ? ? ? H1 H2]; subst. apply IH in H2. discriminate.
      + split; [discriminate|]. intros H.
        inversion H as [|? ? ? ? H1 H2]; subst. congruence. }
  split.
  - destruct (read_raw_SF files) as [raw|e] eqn:E; cbn [bind]; [|discriminate].
    destruct (average_SF raw) as [SF'|e] eqn:A; cbn [bind]; [|discriminate].
    intros H. injection H as <- <-. repeat split; auto.
    + now apply R.
    + intros ->. discriminate.
  - intros (H1 & _ & H3). apply R in H1. rewrite H1. cbn [bind].
    rewrite H3. reflexivity.
Qed.

(** ** The table of averages *)



Lemma sem_at_most_one xs : length xs <= 1 -> pd.sem xs = nan.
Proof.
  intros H. unfold pd.sem.
  assert (L : length (filter pd.notna xs) <= 1).
  { destruct xs as [|x [|y xs]]; cbn in *; try lia.
    destruct (pd.notna x); cbn; lia. }
  apply Nat.leb_le in L. now rewrite L.
Qed.

(** X10.  A G-magnitude that occurs on a single row of the runs has no
    standard error: in its row of the table of averages the errors of the
    potential and of the structure factor are NaN. *)
Theorem average_SF_single_row_errors
    (raw_SF : list pd.DataFrame) (SF : list SFrow) (row : SFrow) :
  average_SF raw_SF = Ok SF -> In row SF ->
  length (pd.get_group (List.concat raw_SF) (pd.G (means row))) = 1 ->
  V_G_error row = nan /\ S_G_error row = nan.
Proof.
  intros HSF Hrow Hone.
  assert (Hne : raw_SF <> []) by (intros ->; discriminate).
  rewrite (average_SF_rows raw_SF Hne) in HSF. injection HSF as <-.
  apply in_map_iff in Hrow. destruct Hrow as (k & <- & Hk).
  cbn in *. split; apply sem_at_most_one; rewrite length_map; lia.
Qed.

Lemma uniques_dropna df : forall acc,
  pd.uniques acc (map pd.G (filter (fun r => pd.notna (pd.G r)) df)) =
  pd.uniques acc (map pd.G df).
Proof.
  induction df as [|r df IH]; intros acc; cbn; [reflexivity|].
  unfold pd.notna at 1. destruct (is_nan (pd.G r)) eqn:E; cbn.
  - apply IH.
  - rewrite E. cbn. destruct (pd.seen (pd.G r) acc); apply IH.
Qed.

Lemma get_group_dropna df k :
  pd.get_group (filter (fun r => pd.notna (pd.G r)) df) k = pd.get_group df k.
Proof.
  unfold pd.get_group. induction df as [|r df IH]; cbn; [reflexivity|].
  unfold pd.notna at 1. destruct (is_nan (pd.G r)) eqn:E; cbn.
  - destruct (pd.G r =? k)%float eqn:F; [|assumption].
    apply eqb_key in F. destruct F as (a & Ha & _).
    assert (is_nan (pd.G r) = false) by (apply is_nan_key; eauto). congruence.
  - destruct (pd.G r =? k)%float; now rewrite IH.
Qed.

Lemma concat_map_filter {A} (p : A -> bool) (l : list (list A)) :
  List.concat (map (filter p) l) = filter p (List.concat l).
Proof.
  induction l as [|x l IH]; cbn; [reflexivity|].
  now rewrite filter_app, IH.
Qed.

Lemma groupby_agg_dropna agg df :
  pd.groupby_agg agg (filter (fun r => pd.notna (pd.G r)) df) =
  pd.groupby_agg agg df.
Proof.
  unfold pd.groupby_agg, pd.group_keys. rewrite uniques_dropna.
  apply map_ext. intros k. now rewrite get_group_dropna.
Qed.

Lemma average_SF_dropna raw_SF :
  average_SF (map (filter (fun r => pd.notna (pd.G r))) raw_SF) =
  average_SF raw_SF.
Proof.
  destruct raw_SF as [|SFi raw_SF]; [reflexivity|].
  unfold average_SF. cbn [map pd.concat bind].
  change (filter (fun r => pd.notna (pd.G r)) SFi
          :: map (filter (fun r => pd.notna (pd.G r))) raw_SF)
    with (map (filter (fun r => pd.notna (pd.G r))) (SFi :: raw_SF)).
  now rewrite concat_map_filter, !groupby_agg_dropna.
Qed.

(** X11.  The rows of the runs whose G-magnitude is NaN take no part in the
    table of averages: it is the table of the runs without these rows. *)
Theorem average_SF_ignores_NaN_G (raw_SF : list pd.DataFrame) :
  average_SF (map (filter (fun r => pd.notna (pd.G r))) raw_SF) =
  average_SF raw_SF.
Proof.
  destruct raw_SF as [|SFi raw_SF]; [reflexivity|].
  rewrite !average_SF_rows by discriminate.
  rewrite concat_map_filter.
  set (all := List.concat (SFi :: raw_SF)).
  assert (K : pd.group_keys (filter (fun r => pd.notna (pd.G r)) all)
              = pd.group_keys all).
  { unfold pd.group_keys. now rewrite uniques_dropna. }
  rewrite K. f_equal. apply map_ext. intros k. now rewrite get_group_dropna.
Qed.

(** X16.  The rows whose G-magnitude is NaN have no part in the selection
    either: the runs without these rows give the same outcome, the same
    run selected or the same failure. *)
Theorem special_twist_ignores_NaN_G (raw_SF : list pd.DataFrame) :
  special_twist (map (filter (fun r => pd.notna (pd.G r))) raw_SF) =
  special_twist raw_SF.
Proof.
  unfold special_twist. rewrite average_SF_dropna.
  destruct (average_SF raw_SF) as [SF|e]; cbn [bind]; [|reflexivity].
  unfold find_special_twist_angle. rewrite !residuals_loop_spec.
  assert (G : forall SFi,
             same_grid SF (filter (fun r => pd.notna (pd.G r)) SFi)
             = same_grid SF SFi)
    by (intros SFi; unfold same_grid; now rewrite groupby_agg_dropna).
  assert (R : forall SFi,
             residual SF (filter (fun r => pd.notna (pd.G r)) SFi)
             = residual SF SFi)
    by (intros SFi; unfold residual; now rewrite groupby_agg_dropna).
  assert (F : forallb (same_grid SF)
                (map (filter (fun r => pd.notna (pd.G r))) raw_SF)
              = forallb (same_grid SF) raw_SF).
  { induction raw_SF as [|SFi raw IH]; cbn; [reflexivity|].
    now rewrite G, IH. }
  rewrite F, map_map, (map_ext _ _ R). reflexivity.
Qed.

(** ** The names of the files written *)

Lemma append_length a b :
  String.length (String.append a b) = String.length a + String.length b.
Proof. induction a as [|c a IH]; cbn; [reflexivity|now rewrite IH]. Qed.

Lemma prefix_length p s :
  String.prefix p s = true -> String.length p <= String.length s.
Proof.
  intros H. apply prefix_iff in H. destruct H as [post ->].
  rewrite append_length. lia.
Qed.

Section Replace.

Variables old new : string.
Hypothesis old_not_empty : 1 <= String.length old.
Hypothesis new_longer : String.length old <= String.length new.

Lemma replace_from_length s : forall skip,
  skip <= String.length s ->
  String.length s <= String.length (str.replace_from old new skip s) + skip.
Proof.
  induction s as [|c s IH]; intros skip Hskip;
    cbn [str.replace_from String.length] in *; [lia|].
  destruct skip as [|k].
  - destruct (String.prefix old (String c s)) eqn:P.
    + apply prefix_length in P. cbn [String.length] in P.
      rewrite append_length.
      specialize (IH (String.length old - 1)). lia.
    + cbn [String.length]. specialize (IH 0). lia.
  - specialize (IH k). lia.
Qed.

Lemma replace_length s :
  str.contains old s = true ->
  String.length s + (String.length new - String.length old)
  <= String.length (str.replace old new s).
Proof.
  unfold str.replace. induction s as [|c s IH]; cbn [str.contains].
  - rewrite orb_false_r. intros P. apply prefix_length in P. cbn in P. lia.
  - intros H. cbn [str.replace_from].
    destruct (String.prefix old (String c s)) eqn:P.
    + apply prefix_length in P. cbn [String.length] in *.
      rewrite append_length.
      pose proof (replace_from_length s (String.length old - 1)). lia.
    + cbn [orb] in H. cbn [String.length]. specialize (IH H). lia.
Qed.

End Replace.

Lemma csv_file_name_contains csv_file :
  str.contains ".csv" (csv_file_name csv_file) = true.
Proof.
  unfold csv_file_name. destruct (str.contains ".csv" csv_file) eqn:E;
    cbn [negb]; [assumption|].
  apply contains_iff. exists csv_file, EmptyString. reflexivity.
Qed.

(** X12.  The two files [write_sfTA_csv] writes never have the same name:
    the name of the twist angle map is longer than the name of the file of
    structure factors, by twenty characters or more, whatever name is
    given. *)
Theorem csv_names_differ (csv_file : string) :
  String.length (csv_file_name csv_file) + 20
  <= String.length (csv_twist_name csv_file) /\
  String.eqb (csv_twist_name csv_file) (csv_file_name csv_file) = false.
Proof.
  assert (L : String.length (csv_file_name csv_file) + 20
              <= String.length (csv_twist_name csv_file)).
  { unfold csv_twist_name.
    pose proof (replace_length ".csv" "_Twist_angle_Num_map.csv"
                  ltac:(cbn; lia) ltac:(cbn; lia)
                  (csv_file_name csv_file) (csv_file_name_contains csv_file))
      as H.
    cbn in H. cbn. lia. }
  split; [assumption|].
  destruct (String.eqb_spec (csv_twist_name csv_file) (csv_file_name csv_file))
    as [E|E]; [|reflexivity].
  rewrite E in L. lia.
Qed.

Lemma prefix_csv_boundary t :
  t <> EmptyString ->
  String.prefix ".csv" t = false ->
  String.prefix ".csv" (String.append t ".csv") = false.
Proof.
  intros Hne Hp.
  destruct (String.prefix ".csv" (String.append t ".csv")) eqn:E; [|reflexivity].
  exfalso. apply prefix_iff in E. destruct E as [post E].
  destruct t as [|c1 [|c2 [|c3 [|c4 t]]]]; cbn in E; try congruence;
    try (injection E; intros; subst; discriminate).
  injection E as -> -> -> -> _.
  assert (P : String.prefix ".csv" (String "." (String "c" (String "s" (String "v" t))))
              = true) by (apply prefix_iff; exists t; reflexivity).
  congruence.
Qed.

Lemma append_empty_r a : String.append a EmptyString = a.
Proof. induction a as [|c a IH]; cbn; [reflexivity|now rewrite IH]. Qed.

Lemma replace_csv_suffix new t :
  str.contains ".csv" t = false ->
  str.replace_from ".csv" new 0 (String.append t ".csv") = String.append t new.
Proof.
  induction t as [|c t IH]; intros H.
  - cbn. apply append_empty_r.
  - cbn [str.contains] in H. apply orb_false_elim in H. destruct H as [P C].
    pose proof (prefix_csv_boundary (String c t) ltac:(discriminate) P) as B.
    cbn [String.append] in *. cbn [str.replace_from]. rewrite B.
    now rewrite IH.
Qed.

(** X13.  For a name in which [".csv"] does not occur, the file of
    structure factors is the name followed by [".csv"] and the twist angle
    map is the name followed by ["_Twist_angle_Num_map.csv"]. *)
Theorem csv_names_of_base_name (csv_file : string) :
  str.contains ".csv" csv_file = false ->
  csv_file_name csv_file = String.append csv_file ".csv" /\
  csv_twist_name csv_file = String.append csv_file "_Twist_angle_Num_map.csv".
Proof.
  intros H. unfold csv_twist_name, csv_file_name, str.replace. rewrite H.
  cbn [negb]. split; [reflexivity|]. now apply replace_csv_suffix.
Qed.

(** ** The export: [write_sfTA_csv] *)

Lemma export_loop_spec sort_values runs : forall i csv_SF csv_mp,
  export_loop sort_values i runs csv_SF csv_mp =
  (csv_SF ++ map (fun run => sort_values (numbered (fst run) (fst (snd run))))
                 (combine (seq i (length runs)) runs),
   csv_mp ++ combine (seq (i + 1) (length runs)) (map snd runs)).
Proof.
  induction runs as [|[SFi directory] runs IH]; intros i csv_SF csv_mp.
  - cbn. now rewrite !app_nil_r.
  - cbn [export_loop length seq combine map fst snd]. rewrite IH.
    rewrite <- !app_assoc. cbn [app].
    replace (S i + 1) with (S (i + 1)) by lia. reflexivity.
Qed.

(** X14.  [write_sfTA_csv] raises [ValueError] and writes nothing when
    there is no run or no directory.  Otherwise the twist angle map it
    writes numbers the directories 1, 2, ... in the order given, one row
    per run, and the names of the two files are those of
    [csv_file_name] and [csv_twist_name]. *)
Theorem write_sfTA_csv_map
    (sort_values : list csv_row -> list csv_row)
    (csv_file : string) (directories : list string)
    (raw_SF : list pd.DataFrame) :
  let n := Nat.min (length raw_SF) (length directories) in
  match write_sfTA_csv sort_values csv_file directories raw_SF with
  | Ok ((name, table), (twist_name, csv_mp)) =>
      n <> 0 /\
      name = csv_file_name csv_file /\
      twist_name = csv_twist_name csv_file /\
      csv_mp = combine (seq 1 n) (firstn n directories)
  | Raise e => e = ValueError /\ n = 0
  end.
Proof.
  intros n. unfold write_sfTA_csv. rewrite export_loop_spec. cbn [app].
  assert (Hlen : length (combine raw_SF directories) = n)
    by apply length_combine.
  assert (Hsnd : map snd (combine raw_SF directories) = firstn n directories).
  { unfold n. clear. revert directories.
    induction raw_SF as [|SFi raw_SF IH]; intros [|d directories]; cbn;
      try reflexivity. now rewrite IH. }
  rewrite Hlen, Hsnd. clearbody n.
  destruct (combine raw_SF directories) as [|run runs] eqn:E.
  - cbn in Hlen. subst n. cbn. auto.
  - cbn in Hlen. subst n. cbn [seq combine map concat_frames bind app].
    repeat split; auto.
Qed.

(** X15.  When the sort only reorders the rows it is given, the file of
    structure factors [write_sfTA_csv] writes is made of one block per run,
    in the order of the runs, and the block of run [i] holds the rows of
    that run, each once and each with the number [i + 1]: no row is lost,
    repeated, or given the number of another run. *)
Theorem write_sfTA_csv_blocks
    (sort_values : list csv_row -> list csv_row)
    (csv_file : string) (directories : list string)
    (raw_SF : list pd.DataFrame)
    (name twist_name : string) (table : list csv_row)
    (csv_mp : list (nat * string)) :
  (forall l, Permutation (sort_values l) l) ->
  write_sfTA_csv sort_values csv_file directories raw_SF =
  Ok ((name, table), (twist_name, csv_mp)) ->
  exists blocks,
    table = List.concat blocks /\
    Forall2 (fun block run =>
               Permutation block (numbered (fst run) (fst (snd run))) /\
               Forall (fun row => Twist_angle_Num row = fst run + 1) block)
      blocks
      (combine (seq 0 (length csv_mp)) (combine raw_SF directories)).
Proof.
  intros Hperm. unfold write_sfTA_csv. rewrite export_loop_spec. cbn [app].
  set (runs := combine raw_SF directories).
  remember (map (fun run => sort_values (numbered (fst run) (fst (snd run))))
                (combine (seq 0 (length runs)) runs)) as blocks eqn:B.
  destruct blocks as [|b bs]; cbn [concat_frames bind]; [discriminate|].
  intros H. injection H as _ <- _ <-.
  exists (b :: bs). split; [reflexivity|].
  rewrite length_combine, length_seq, length_map, Nat.min_id. rewrite B.
  generalize (combine (seq 0 (length runs)) runs). clear -Hperm.
  induction l as [|run l IH]; cbn; constructor; auto.
  split; [apply Hperm|].
  apply Forall_forall. intros row Hrow.
  apply (Permutation_in _ (Hperm _)) in Hrow. unfold numbered in Hrow.
  apply in_map_iff in Hrow. destruct Hrow as (r & <- & _). reflexivity.
Qed.

Lemma insert_by_G_Permutation x l : Permutation (insert_by_G x l) (x :: l).
Proof.
  induction l as [|y l IH]; cbn; [auto|].
  destruct (is_nan (pd.G (columns y)) || _); [auto|].
  eapply Permutation_trans; [apply perm_skip, IH|apply perm_swap].
Qed.

Lemma sort_by_G_Permutation l : Permutation (sort_by_G l) l.
Proof.
  induction l as [|x l IH]; cbn; [constructor|].
  eapply Permutation_trans; [apply insert_by_G_Permutation|].
  now apply perm_skip.
Qed.

(** ** The further properties at concrete inputs *)

(** X5 at the vectors (1,0,0), (0,2,0), (0,0,3) written one per line. *)
Lemma Gvector_magnitudes_table_refused_witness :
  read_and_generate_Gvector_magnitudes grid_one_vector_per_line =
  Raise ValueError.
Proof.
  apply (Gvector_magnitudes_table_refused grid_one_vector_per_line 3).
  - lia.
  - cbn. lia.
  - repeat constructor.
Defined.

(** X6 at the same vectors written one number per line. *)
Lemma Gvector_magnitudes_not_negative_witness :
  Forall (fun g => nan_or_nonneg g /\ (g <? 0)%float = false) [1; 2; 3]%float.
Proof.
  apply (Gvector_magnitudes_not_negative grid_one_per_line).
  vm_compute. reflexivity.
Defined.

(** X7 at a grid of two vectors with two potentials and two structure
    factors. *)
Lemma read_SFi_rows_witness :
  exists G V_G S_G,
    read_and_generate_Gvector_magnitudes grid_two_vectors = Ok G /\
    read_Vg [[5]; [6]]%float = Ok V_G /\
    read_Sg [[7]; [8]]%float = Ok S_G /\
    length [r 1 5 7; r 2 6 8] = length G /\
    map pd.G [r 1 5 7; r 2 6 8] = map np.round10 G /\
    map pd.V_G [r 1 5 7; r 2 6 8] =
      match V_G with
      | np.Arr0 x => repeat x (length G)
      | _ => np.ravel V_G
      end /\
    map pd.S_G [r 1 5 7; r 2 6 8] =
      match S_G with
      | np.Arr0 x => repeat x (length G)
      | _ => np.ravel S_G
      end /\
    np.ndim V_G <= 1 /\ np.ndim S_G <= 1.
Proof.
  apply (read_SFi_rows grid_two_vectors [[5]; [6]]%float [[7]; [8]]%float).
  vm_compute. reflexivity.
Defined.


(** X10 at one run with one row at each of the G-magnitudes 1 and 2. *)
Lemma average_SF_single_row_errors_witness :
  V_G_error (row_of_group 1 [r 1 2 3]) = nan /\
  S_G_error (row_of_group 1 [r 1 2 3]) = nan.
Proof.
  apply (average_SF_single_row_errors
           [[r 1 2 3; r 2 4 5]]
           [row_of_group 1 [r 1 2 3]; row_of_group 2 [r 2 4 5]]).
  - vm_compute. reflexivity.
  - left. reflexivity.
  - vm_compute. reflexivity.
Defined.

(** X13 at the name [out]. *)
Lemma csv_names_of_base_name_witness :
  csv_file_name "out" = "out.csv"%string /\
  csv_twist_name "out" = "out_Twist_angle_Num_map.csv"%string.
Proof.
  apply (csv_names_of_base_name "out"). reflexivity.
Defined.

(** X15 at two runs whose rows are not in ascending order of G, sorted by
    insertion. *)
Lemma write_sfTA_csv_blocks_witness :
  exists blocks,
    [mkcsv_row 1 (r 1 0 10); mkcsv_row 1 (r 2 0 20);
     mkcsv_row 2 (r 1 0 30); mkcsv_row 2 (r 2 0 40)] = List.concat blocks /\
    Forall2 (fun block run =>
               Permutation block (numbered (fst run) (fst (snd run))) /\
               Forall (fun row => Twist_angle_Num row = fst run + 1) block)
      blocks
      (combine (seq 0 (length [(1, "a"%string); (2, "b"%string)]))
         (combine [[r 2 0 20; r 1 0 10]; [r 1 0 30; r 2 0 40]]
                  ["a"%string; "b"%string])).
Proof.
  apply (write_sfTA_csv_blocks sort_by_G "out" ["a"; "b"]%string
           [[r 2 0 20; r 1 0 10]; [r 1 0 30; r 2 0 40]]
           "out.csv" "out_Twist_angle_Num_map.csv").
  - exact sort_by_G_Permutation.
  - vm_compute. reflexivity.
Defined.
